(** * Layout-feature diagnostics: a shallow embedding of the analysis scripts

    The development follows three Python scripts:
    - [archive/scripts-removed-2025-10-09/deep-compare-monzo-cnn.py]
      (module [DeepCompare]): feature extraction with indices, raw DOM
      statistics, the bounded overlap sample;
    - [scripts/analyze-layout-features.py] (module [AnalyzeLayout]):
      feature extraction, the per-site boundary, the cross-site comparison;
    - [scripts/visualize-layout-heatmap.py] shares the extraction loop.

    Conventions of the embedding.
    - JSON numbers and Python floats are exact rationals [Q]; Python [==] on
      numbers is [Qeq].
    - A Python [str] is a [string] whose characters are the code points
      below 256.
    - A dict whose iteration order is observed ([sites_data]) is an
      association list in insertion order; a dict used only through lookups
      and its key set is a [gmap].
    - A computation that may raise is a value of [exn + A]. *)

From stdpp Require Import gmap strings list sorting.
From Stdlib Require Import Ascii QArith Qabs DecimalString Lqa.

Close Scope Q_scope.
Open Scope string_scope.
Open Scope list_scope.

(** ** Python primitives used by the scripts *)

Module Py.

Inductive exn : Set :=
| KeyError | IndexError | ValueError | ZeroDivisionError | FileNotFoundError.

Definition result (A : Type) : Type := (exn + A)%type.

Definition ret {A} (a : A) : result A := inr a.
Definition raise {A} (e : exn) : result A := inl e.
Definition bind {A B} (m : result A) (k : A -> result B) : result B :=
  match m with
  | inl e => inl e
  | inr a => k a
  end.

Declare Scope py_scope.
Delimit Scope py_scope with py.
Notation "x <- m ;; k" := (bind m (fun x => k))
  (at level 100, m at next level, right associativity) : py_scope.
Open Scope py_scope.

Definition subscript {A} (o : option A) : result A :=
  match o with
  | Some a => ret a
  | None => raise KeyError
  end.

Fixpoint mapM {A B} (f : A -> result B) (l : list A) : result (list B) :=
  match l with
  | [] => ret []
  | a :: l' =>
      bind (f a) (fun b => bind (mapM f l') (fun bs => ret (b :: bs)))
  end.

(** *** Numbers *)

Definition Qltb (a b : Q) : bool := negb (Qle_bool b a).

Definition sum (l : list Q) : Q := fold_left Qplus l 0%Q.

(** [a / b] on numbers. *)
Definition truediv (a b : Q) : result Q :=
  if Qeq_bool b 0 then raise ZeroDivisionError else ret (a / b)%Q.

(** [max(values)]: the first of the largest items; [ValueError] on []. *)
Definition max (l : list Q) : result Q :=
  match l with
  | [] => raise ValueError
  | v :: l' => ret (fold_left (fun m v' => if Qltb m v' then v' else m) l' v)
  end.

Definition min (l : list Q) : result Q :=
  match l with
  | [] => raise ValueError
  | v :: l' => ret (fold_left (fun m v' => if Qltb v' m then v' else m) l' v)
  end.

(** [values.index(v)]: position of the first item equal to [v]. *)
Fixpoint index (v : Q) (l : list Q) : result nat :=
  match l with
  | [] => raise ValueError
  | v' :: l' => if Qeq_bool v' v then ret 0%nat
                else bind (index v l') (fun i => ret (S i))
  end.

(** [l[i]] for a non-negative [i]. *)
Definition getitem {A} (l : list A) (i : nat) : result A :=
  match nth_error l i with
  | Some a => ret a
  | None => raise IndexError
  end.

(** [l[lo:hi]] for non-negative bounds. *)
Definition slice {A} (lo hi : nat) (l : list A) : list A :=
  firstn (hi - lo) (skipn lo l).

Fixpoint enumerate_from {A} (i : nat) (l : list A) : list (nat * A) :=
  match l with
  | [] => []
  | a :: l' => (i, a) :: enumerate_from (S i) l'
  end.

Definition enumerate {A} (l : list A) : list (nat * A) := enumerate_from 0 l.

(** *** Dicts in insertion order and sorting *)

(** [d[k] = v]: overwrite in place, or append a new key. *)
Fixpoint setitem {V} (k : string) (v : V) (d : list (string * V))
    : list (string * V) :=
  match d with
  | [] => [(k, v)]
  | (k', v') :: d' =>
      if String.eqb k' k then (k', v) :: d' else (k', v') :: setitem k v d'
  end.

(** [d.get(k)] *)
Fixpoint get {V} (d : list (string * V)) (k : string) : option V :=
  match d with
  | [] => None
  | (k', v) :: d' => if String.eqb k' k then Some v else get d' k
  end.

(** [list(d.keys())] *)
Definition keys {V} (d : list (string * V)) : list string := map fst d.

Fixpoint insert_asc (s : string) (l : list string) : list string :=
  match l with
  | [] => [s]
  | s' :: l' => if String.leb s s' then s :: l else s' :: insert_asc s l'
  end.

(** [sorted(names)] on strings: ascending by code point. *)
Definition sorted (l : list string) : list string :=
  fold_right insert_asc [] l.

Section SortDesc.
Context {A : Type} (key : A -> Q).

(** [a] goes in front of the first item whose key is not larger. *)
Fixpoint insert_desc (a : A) (l : list A) : list A :=
  match l with
  | [] => [a]
  | b :: l' => if Qltb (key a) (key b) then b :: insert_desc a l'
               else a :: l
  end.

(** [l.sort(key=key, reverse=True)]: descending, items with equal keys in
    their original order. *)
Definition sort_desc (l : list A) : list A := fold_right insert_desc [] l.
End SortDesc.

(** *** Strings *)

(** [str(i)] for a non-negative integer. *)
Definition str (i : nat) : string := NilZero.string_of_uint (Nat.to_uint i).

(** [kw in name]: [kw] occurs in [name] as a contiguous substring. *)
Fixpoint contains (kw name : string) : bool :=
  String.prefix kw name ||
  match name with
  | EmptyString => false
  | String _ rest => contains kw rest
  end.

(** [s.replace('px', '')]: every occurrence, scanning left to right. *)
Fixpoint replace_px (s : string) : string :=
  match s with
  | EmptyString => EmptyString
  | String c rest =>
      match c, rest with
      | "p"%char, String "x"%char rest' => replace_px rest'
      | _, _ => String c (replace_px rest)
      end
  end.

(** [s.replace('.', '')]. *)
Fixpoint replace_dot (s : string) : string :=
  match s with
  | EmptyString => EmptyString
  | String c rest =>
      if Ascii.eqb c "."%char then replace_dot rest
      else String c (replace_dot rest)
  end.

Definition code (c : ascii) : nat := nat_of_ascii c.

(** [c.isspace()] on the code points below 256. *)
Definition isspace (c : ascii) : bool :=
  let n := code c in
  (((9 <=? n) && (n <=? 13)) || ((28 <=? n) && (n <=? 32))
   || (n =? 133) || (n =? 160))%nat.

(** ASCII [0]..[9]. *)
Definition is_decimal (c : ascii) : bool :=
  let n := code c in ((48 <=? n) && (n <=? 57))%nat.

(** [c.isdigit()] on the code points below 256: the decimal digits and the
    superscripts two, three and one. *)
Definition isdigit_char (c : ascii) : bool :=
  let n := code c in
  (is_decimal c || (n =? 178) || (n =? 179) || (n =? 185))%nat.

Fixpoint forallb_str (f : ascii -> bool) (s : string) : bool :=
  match s with
  | EmptyString => true
  | String c rest => f c && forallb_str f rest
  end.

(** [s.isdigit()]: non-empty and every character a digit. *)
Definition isdigit (s : string) : bool :=
  match s with
  | EmptyString => false
  | _ => forallb_str isdigit_char s
  end.

(** [s.split()]: the maximal runs of non-whitespace characters. [cur] is the
    run being read. *)
Fixpoint split_from (cur : string) (s : string) : list string :=
  match s with
  | EmptyString => match cur with EmptyString => [] | _ => [cur] end
  | String c rest =>
      if isspace c then
        match cur with
        | EmptyString => split_from EmptyString rest
        | _ => cur :: split_from EmptyString rest
        end
      else split_from (cur ++ String c EmptyString)%string rest
  end.

Definition split (s : string) : list string := split_from EmptyString s.

Fixpoint lstrip (s : string) : string :=
  match s with
  | EmptyString => EmptyString
  | String c rest => if isspace c then lstrip rest else s
  end.

Fixpoint rstrip (s : string) : string :=
  match s with
  | EmptyString => EmptyString
  | String c rest =>
      match rstrip rest with
      | EmptyString => if isspace c then EmptyString else String c EmptyString
      | r => String c r
      end
  end.

(** [s.strip()]. *)
Definition strip (s : string) : string := rstrip (lstrip s).

(** Truth value of a string: non-empty. *)
Definition truthy (s : string) : bool :=
  match s with EmptyString => false | _ => true end.

Fixpoint decimal_value (acc : N) (s : string) : N :=
  match s with
  | EmptyString => acc
  | String c rest => decimal_value (10 * acc + (N.of_nat (code c) - 48))%N rest
  end.

Fixpoint pow10 (n : nat) : positive :=
  match n with
  | O => 1%positive
  | S n' => (10 * pow10 n')%positive
  end.

(** The part of [s] before its first period, and the part after it
    ([None] when [s] has no period). *)
Fixpoint cut_dot (s : string) : string * option string :=
  match s with
  | EmptyString => (EmptyString, None)
  | String c rest =>
      if Ascii.eqb c "."%char then (EmptyString, Some rest)
      else let '(a, b) := cut_dot rest in (String c a, b)
  end.

(** [float(p)] on the literals [digits], [digits.], [.digits] and
    [digits.digits]; every other string made of digit characters and periods
    (a second period, a superscript digit, no digit at all) is a
    [ValueError]. The scripts call [float] on a string only behind the filter
    [p.replace('.', '').isdigit()], which admits no sign, exponent, letter or
    blank, so the rest of the [float] grammar is out of reach and is not
    modelled: on such strings this function is not [float]. *)
Definition float (p : string) : result Q :=
  let '(ip, fp) := cut_dot p in
  let fp := default EmptyString fp in
  if forallb_str is_decimal ip && forallb_str is_decimal fp
     && truthy (ip ++ fp)%string
  then ret (Qmake (Z.of_N (decimal_value 0%N (ip ++ fp)%string))
                  (pow10 (String.length fp)))
  else raise ValueError.

(** [int(q)]: truncation toward zero. *)
Definition int (q : Q) : Z := Z.quot (Qnum q) (Zpos (Qden q)).

(** [c * n] for a one-character string [c]: [n] copies of the character,
    none when [n] is negative. *)
Definition times {A} (c : A) (n : Z) : list A := repeat c (Z.to_nat n).

End Py.

(** ** The documents read from the artifact store *)

Module Doc.

(** [vector_data.json]: [globalStyleVec.interpretable] maps the stringified
    index to a number, [globalStyleVec.metadata.featureNames] lists the
    names. A missing key is [None]. *)
Record Metadata := { featureNames : option (list string) }.
Record GlobalStyleVec := {
  interpretable : option (gmap string Q);
  metadata : option Metadata }.
Record VectorData := { globalStyleVec : option GlobalStyleVec }.

(** [raw/computed_styles.json]: one record per DOM element. [tag],
    [textContent] and [styles] are read with [.get]; [bbox] is subscripted
    unconditionally, so every record of the model carries one. *)
Record BBox := { x : Q; y : Q; w : Q; h : Q }.
Record Styles := {
  padding : option string;
  backgroundImage : option string }.
Record Element := {
  tag : option string;
  textContent : option string;
  styles : option Styles;
  bbox : BBox }.

(** [raw/meta.json]. *)
Record Viewport := { width : Q; height : Q }.
Record Meta := { viewport : Viewport }.

(** The keyword list written out in each script's extraction loop. *)
Definition keywords : list string :=
  [ "hierarchy_depth"; "weight_contrast";
    "density_score"; "whitespace_ratio"; "padding_consistency";
    "image_text_balance";
    "border_heaviness"; "shadow_depth"; "grouping_strength";
    "compositional_complexity";
    "saturation_energy"; "role_distinction" ].

(** [any(keyword in name for keyword in [...])]. *)
Definition any_keyword_in (name : string) : bool :=
  existsb (fun keyword => Py.contains keyword name) keywords.

Section ExtractLoop.
Import Py.
(** The three scripts run the same loop and differ in the entry they
    store: [entry i v] is built from the index and [float(interpretable[str(i)])]. *)
Context {V : Type} (entry : nat -> Q -> V).

Fixpoint extract_loop (interpretable : gmap string Q)
    (items : list (nat * string)) (features : gmap string V)
    : result (gmap string V) :=
  match items with
  | [] => ret features
  | (i, name) :: items' =>
      if any_keyword_in name then
        v <- subscript (interpretable !! str i) ;;
        extract_loop interpretable items' (<[name := entry i v]> features)
      else extract_loop interpretable items' features
  end.

Definition extract (vector_data : VectorData) : result (gmap string V) :=
  gsv <- subscript (globalStyleVec vector_data) ;;
  interpretable <- subscript (Doc.interpretable gsv) ;;
  md <- subscript (metadata gsv) ;;
  feature_names <- subscript (featureNames md) ;;
  extract_loop interpretable (enumerate feature_names) ∅.
End ExtractLoop.

End Doc.

(** ** archive/scripts-removed-2025-10-09/deep-compare-monzo-cnn.py *)

Module DeepCompare.
Import Py Doc.

Record Feature := { value : Q; index : nat }.

Definition extract_layout_features (vector_data : VectorData)
    : result (gmap string Feature) :=
  extract (fun i v => {| value := v; index := i |}) vector_data.

(** [s.get('tag') in ['img', 'picture', 'video'] or
     (s.get('styles', {}).get('backgroundImage') and
      s['styles']['backgroundImage'] != 'none')] *)
Definition is_img (s : Element) : bool :=
  match tag s with
  | Some t => bool_decide (t ∈ ["img"; "picture"; "video"])
  | None => false
  end
  || match styles s with
     | Some st =>
         match backgroundImage st with
         | Some b => truthy b && negb (String.eqb b "none")
         | None => false
         end
     | None => false
     end.

(** [s.get('textContent') and len(s['textContent'].strip()) > 0] *)
Definition is_text (s : Element) : bool :=
  match textContent s with
  | Some t => truthy t && (0 <? String.length (strip t))%nat
  | None => false
  end.

(** [s['bbox']['w'] * s['bbox']['h']] *)
Definition area (s : Element) : Q := (w (bbox s) * h (bbox s))%Q.

(** [s.get('styles', {}).get('padding', '0px 0px 0px 0px')] *)
Definition padding_str (s : Element) : string :=
  match styles s with
  | Some st => default "0px 0px 0px 0px" (padding st)
  | None => "0px 0px 0px 0px"
  end.

(** The filter of the list comprehension: [p.replace('.', '').isdigit()]. *)
Definition keeps (p : string) : bool := isdigit (replace_dot p).

(** [[float(p) for p in parts if p.replace('.', '').isdigit()]] *)
Definition parse_parts (parts : list string) : result (list Q) :=
  mapM float (List.filter keeps parts).

Fixpoint padding_loop (styles : list Element) (padding_values : list Q)
    : result (list Q) :=
  match styles with
  | [] => ret padding_values
  | s :: styles' =>
      let parts := split (replace_px (padding_str s)) in
      vs <- parse_parts parts ;;
      padding_loop styles' (padding_values ++ vs)
  end.

Definition boxes_overlap (bbox1 bbox2 : BBox) : bool :=
  negb (Qltb (x bbox1 + w bbox1) (x bbox2) ||
        Qltb (x bbox2 + w bbox2) (x bbox1) ||
        Qltb (y bbox1 + h bbox1) (y bbox2) ||
        Qltb (y bbox2 + h bbox2) (y bbox1)).

Section OverlapLoops.
(** The nested loops of the overlap sample, with the loop body [visit] and
    the element type left open: the script runs them on the element
    records with [count_overlap] as body. *)
Context {E St : Type} (visit : E -> E -> St -> St).

Fixpoint inner_loop (s1 : E) (neighbours : list E) (acc : St) : St :=
  match neighbours with
  | [] => acc
  | s2 :: neighbours' => inner_loop s1 neighbours' (visit s1 s2 acc)
  end.

Fixpoint outer_loop (styles : list E) (anchors : list (nat * E)) (acc : St)
    : St :=
  match anchors with
  | [] => acc
  | (i, s1) :: anchors' =>
      let neighbours :=
        slice (i + 1) (Nat.min (i + 20) (length styles)) styles in
      outer_loop styles anchors' (inner_loop s1 neighbours acc)
  end.

Definition overlap_loops (styles : list E) (init : St) : St :=
  outer_loop styles (enumerate (slice 0 100 styles)) init.
End OverlapLoops.

(** [if boxes_overlap(s1['bbox'], s2['bbox']): overlapping_pairs += 1] *)
Definition count_overlap (s1 s2 : Element) (overlapping_pairs : nat) : nat :=
  if boxes_overlap (bbox s1) (bbox s2) then S overlapping_pairs
  else overlapping_pairs.

Definition count_overlapping_pairs (styles : list Element) : nat :=
  overlap_loops count_overlap styles 0%nat.

(** The same loops run on the positions [0 .. n-1] with a body that logs its
    two arguments: the position pairs the loops visit on a list of [n]
    elements, in the order of the visits. *)
Definition examined_pairs (n : nat) : list (nat * nat) :=
  overlap_loops (fun i j log => log ++ [(i, j)]) (seq 0 n) [].

Definition len (values : list Q) : Q := inject_Z (Z.of_nat (length values)).

(** [calculate_std] up to its last line: the script returns
    [variance ** 0.5], which is not a rational; the model returns
    [variance]. *)
Definition calculate_std_squared (values : list Q) : result Q :=
  match values with
  | [] => ret 0%Q
  | _ =>
      mean <- truediv (sum values) (len values) ;;
      truediv (sum (map (fun x => (x - mean) ^ 2)%Q values)) (len values)
  end.

Record RawStats := {
  total_elements : nat;
  viewport_area : Q;
  total_element_area : Q;
  density_ratio : Q;
  img_elements : nat;
  text_elements : nat;
  img_area : Q;
  text_area : Q;
  img_text_ratio : Q;
  padding_values : list Q;
  padding_mean : Q;
  padding_std_squared : Q;
  overlapping_pairs : nat }.

Definition analyze_raw_elements (styles : list Element) (meta : Meta)
    : result RawStats :=
  let viewport_area := (width (viewport meta) * height (viewport meta))%Q in
  let total_elements := length styles in
  let img_elements := List.filter is_img styles in
  let text_elements := List.filter is_text styles in
  let total_element_area := sum (map area styles) in
  let img_area := sum (map area img_elements) in
  let text_area := sum (map area text_elements) in
  padding_values <- padding_loop styles [] ;;
  let overlapping_pairs := count_overlapping_pairs styles in
  density_ratio <- truediv total_element_area viewport_area ;;
  img_text_ratio <-
    (if Qltb 0 text_area then truediv img_area text_area else ret 0%Q) ;;
  padding_mean <-
    (match padding_values with
     | [] => ret 0%Q
     | _ => truediv (sum padding_values) (len padding_values)
     end) ;;
  padding_std_squared <-
    (match padding_values with
     | [] => ret 0%Q
     | _ => calculate_std_squared padding_values
     end) ;;
  ret {| total_elements := total_elements;
         viewport_area := viewport_area;
         total_element_area := total_element_area;
         density_ratio := density_ratio;
         img_elements := length img_elements;
         text_elements := length text_elements;
         img_area := img_area;
         text_area := text_area;
         img_text_ratio := img_text_ratio;
         padding_values := padding_values;
         padding_mean := padding_mean;
         padding_std_squared := padding_std_squared;
         overlapping_pairs := overlapping_pairs |}.






End DeepCompare.

(** ** scripts/analyze-layout-features.py *)

Module AnalyzeLayout.
Import Py Doc.

Definition extract_layout_features (vector_data : VectorData)
    : result (gmap string Q) :=
  extract (fun _ v => v) vector_data.

(** A cell of the bar [print_feature_bar] prints: a full block or a light
    shade. *)
Inductive Cell : Set := Filled | Shade.

Definition bar_length : Z := 40.

(** [print_feature_bar]: the bar of its second printed line,
    [filled] full blocks followed by [bar_length - filled] shades. *)
Definition print_feature_bar (value : Q) : list Cell :=
  let filled := int (value * inject_Z bar_length) in
  times Filled filled ++ times Shade (bar_length - filled).

(** What [analyze_site] returns for a site: its features, or [None] after an
    exception. *)
Definition SiteFeatures : Type := option (gmap string Q).

(** Truth value of [features]: neither [None] nor an empty dict. *)
Definition truthy_features (features : SiteFeatures) : bool :=
  match features with
  | Some m => negb (bool_decide (m = ∅))
  | None => false
  end.

Definition feature_labels : list (string * string) :=
  [ ("typo_hierarchy_depth", "Hierarchy");
    ("typo_weight_contrast", "Weight");
    ("spacing_density_score", "Density");
    ("spacing_whitespace_ratio", "Whitespace");
    ("spacing_padding_consistency", "Padding");
    ("spacing_image_text_balance", "Img/Text");
    ("shape_border_heaviness", "Borders");
    ("shape_shadow_depth", "Shadows");
    ("shape_grouping_strength", "Grouping");
    ("shape_compositional_complexity", "Complexity");
    ("brand_color_saturation_energy", "Saturation");
    ("brand_color_role_distinction", "ColorRole") ].

(** The marker printed next to a feature's variance. *)
Inductive Marker : Set :=
| Good   (* variance > 0.3: green, check mark *)
| Some_  (* variance > 0.1: yellow, tilde *)
| Poor.  (* otherwise: red, cross *)

Record Row := {
  feature : string;
  label : string;
  values : list Q;
  variance : Q;
  marker : Marker }.

Record Insight := {
  insight_feature : string;
  max_site : string;
  max_val : Q;
  min_site : string;
  min_val : Q;
  insight_variance : Q }.

(** [compare_sites] returns nothing and prints; the model returns what it
    prints: the table rows, the sorted [insights] list, the five it prints,
    and the trait list of each site of the summary. *)
Record Comparison := {
  table : list Row;
  insights : list Insight;
  printed : list Insight;
  summary : list (string * list string) }.

(** The first loop: the union of the keys of the truthy mappings. *)
Fixpoint collect_features (items : list (string * SiteFeatures))
    (all_features : gset string) : gset string :=
  match items with
  | [] => all_features
  | (site_name, features) :: items' =>
      collect_features items'
        (if truthy_features features
         then all_features ∪ dom (default ∅ features)
         else all_features)
  end.

(** One turn of [for site in site_names]: the value appended to [values]. *)
Definition site_value (sites_data : list (string * SiteFeatures))
    (feature : string) (site : string) : result Q :=
  features <- subscript (get sites_data site) ;;
  if truthy_features features then
    match default ∅ features !! feature with
    | Some v => ret v
    | None => ret 0%Q
    end
  else ret 0%Q.

Definition marker_of (variance : Q) : Marker :=
  if Qltb 0.3 variance then Good
  else if Qltb 0.1 variance then Some_
  else Poor.

(** The body of [for feature in all_features], up to the table line it
    prints. The line formats [values[0]], [values[1]] and [values[2]]. *)
Definition feature_row (sites_data : list (string * SiteFeatures))
    (site_names : list string) (feature : string) : result Row :=
  let label := default feature (get feature_labels feature) in
  values <- mapM (site_value sites_data feature) site_names ;;
  hi <- max values ;;
  lo <- min values ;;
  let variance := (hi - lo)%Q in
  _ <- getitem values 0 ;;
  _ <- getitem values 1 ;;
  _ <- getitem values 2 ;;
  ret {| feature := feature; label := label; values := values;
         variance := variance; marker := marker_of variance |}.

(** The [if variance > 0.3] block that collects an insight. *)
Definition insight_of (site_names : list string) (r : Row)
    : result Insight :=
  hi <- max (values r) ;;
  max_idx <- index hi (values r) ;;
  lo <- min (values r) ;;
  min_idx <- index lo (values r) ;;
  max_site <- getitem site_names max_idx ;;
  max_val <- getitem (values r) max_idx ;;
  min_site <- getitem site_names min_idx ;;
  min_val <- getitem (values r) min_idx ;;
  ret {| insight_feature := label r;
         max_site := max_site; max_val := max_val;
         min_site := min_site; min_val := min_val;
         insight_variance := variance r |}.

Fixpoint feature_loop (sites_data : list (string * SiteFeatures))
    (site_names : list string) (all_features : list string)
    (table : list Row) (insights : list Insight)
    : result (list Row * list Insight) :=
  match all_features with
  | [] => ret (table, insights)
  | feature :: all_features' =>
      r <- feature_row sites_data site_names feature ;;
      if Qltb 0.3 (variance r) then
        i <- insight_of site_names r ;;
        feature_loop sites_data site_names all_features'
          (table ++ [r]) (insights ++ [i])
      else
        feature_loop sites_data site_names all_features'
          (table ++ [r]) insights
  end.

(** [features.get(key, 0)] *)
Definition feature_get (features : gmap string Q) (key : string) : Q :=
  default 0%Q (features !! key).

(** One [if ... > high: ... elif ... < low: ...] rule of the summary. *)
Definition trait_rule (features : gmap string Q) (key : string)
    (high : Q) (high_label : string) (low : Q) (low_label : string)
    : list string :=
  if Qltb high (feature_get features key) then [high_label]
  else if Qltb (feature_get features key) low then [low_label]
  else [].

Definition traits (features : gmap string Q) : list string :=
  trait_rule features "spacing_whitespace_ratio"
    0.7 "Generous whitespace" 0.4 "Tight spacing" ++
  trait_rule features "spacing_density_score"
    0.8 "Dense content" 0.5 "Minimal content" ++
  trait_rule features "shape_shadow_depth"
    0.3 "Elevated (shadows)" 0.1 "Flat design" ++
  trait_rule features "shape_border_heaviness"
    0.3 "Heavy borders/dividers" 0.1 "Minimal borders" ++
  trait_rule features "brand_color_saturation_energy"
    0.5 "Vibrant colors" 0.2 "Muted palette" ++
  trait_rule features "spacing_padding_consistency"
    0.7 "Systematic spacing" 0.3 "Variable spacing" ++
  trait_rule features "spacing_image_text_balance"
    0.5 "Image-heavy" 0.1 "Text-focused".

Fixpoint summary_loop (items : list (string * SiteFeatures))
    : list (string * list string) :=
  match items with
  | [] => []
  | (site_name, features) :: items' =>
      if truthy_features features
      then (site_name, traits (default ∅ features)) :: summary_loop items'
      else summary_loop items'
  end.

Definition compare_sites (sites_data : list (string * SiteFeatures))
    : result Comparison :=
  let all_features :=
    sorted (elements (collect_features sites_data ∅)) in
  let site_names := keys sites_data in
  (* the table header formats site_names[0], site_names[1], site_names[2] *)
  _ <- getitem site_names 0 ;;
  _ <- getitem site_names 1 ;;
  _ <- getitem site_names 2 ;;
  out <- feature_loop sites_data site_names all_features [] [] ;;
  let '(table, insights) := out in
  let insights := sort_desc insight_variance insights in
  ret {| table := table;
         insights := insights;
         printed := slice 0 5 insights;
         summary := summary_loop sites_data |}.

Section Artifacts.
(** The artifact directory: [artifacts run_id] is the parsed
    [artifacts/<run_id>/vector_data.json], [None] when the file is
    missing. *)
Variable artifacts : string -> option VectorData.





Definition sites : list (string * string) :=
  [ ("2025-10-02T13-03-18-205Z_4b76f711_stripe-com", "Stripe");
    ("2025-10-02T13-03-58-115Z_03ad24ee_monzo-com", "Monzo");
    ("2025-10-02T13-09-20-742Z_14fe0555_cnn-com", "CNN") ].

End Artifacts.

End AnalyzeLayout.

(** ** scripts/visualize-layout-heatmap.py *)

Module Heatmap.
Import Py Doc.

Definition load_features (artifacts : string -> option VectorData)
    (run_id : string) : result (gmap string Q) :=
  match artifacts run_id with
  | Some data => extract (fun _ v => v) data
  | None => raise FileNotFoundError
  end.

(** The loading loop of [main]: a site whose load raises is skipped
    ([except: continue]). *)
Fixpoint load_loop (artifacts : string -> option VectorData)
    (sites : list (string * string))
    (all_features : list (string * gmap string Q))
    : list (string * gmap string Q) :=
  match sites with
  | [] => all_features
  | (run_id, name) :: sites' =>
      match load_features artifacts run_id with
      | inr features =>
          load_loop artifacts sites' (setitem name features all_features)
      | inl _ => load_loop artifacts sites' all_features
      end
  end.

End Heatmap.

(** ** Vocabulary of the statements *)

Definition canonical (name : string) : Prop :=
  exists kw pre post,
    kw ∈ Doc.keywords /\ name = (pre ++ kw ++ post)%string.

(** The characters of a string. *)
Definition chars (s : string) : list ascii := String.list_ascii_of_string s.

(** The pairs the overlap loops hand to their body, in order. *)
Definition visits {E : Type} (styles : list E) : list (E * E) :=
  flat_map
    (fun a : nat * E =>
       map (pair (snd a))
         (Py.slice (fst a + 1) (Nat.min (fst a + 20) (length styles)) styles))
    (Py.enumerate (Py.slice 0 100 styles)).

(** [boxes_overlap] on the elements at two positions of [styles]. *)
Definition overlap_at (styles : list Doc.Element) (p : nat * nat) : bool :=
  match styles !! fst p, styles !! snd p with
  | Some s1, Some s2 => DeepCompare.boxes_overlap (Doc.bbox s1) (Doc.bbox s2)
  | _, _ => false
  end.

(** The literal item [best] sits at position [k] of [l], nothing in [l] is
    above it in the order [lt], and everything before [k] is strictly
    below. *)
Definition first_extreme (lt : Q -> Q -> Prop) (l : list Q) (k : nat)
    (best : Q) : Prop :=
  l !! k = Some best /\
  (forall v, v ∈ l -> ~ lt best v) /\
  (forall k' v, k' < k -> l !! k' = Some v -> lt v best).

Definition desc {A : Type} (key : A -> Q) (a b : A) : Prop :=
  (key b <= key a)%Q.

(** The entry of a site in a feature's value vector, in the spec's words:
    the site's value for the feature, [0.0] for a site without that key. *)
Definition value_of (sites_data : list (string * AnalyzeLayout.SiteFeatures))
    (feature site : string) : Q :=
  match Py.get sites_data site with
  | Some (Some m) => default 0%Q (m !! feature)
  | _ => 0%Q
  end.

(** A table row as the loop body computes it from [sites_data]. *)
Definition row_ok (sites_data : list (string * AnalyzeLayout.SiteFeatures))
    (r : AnalyzeLayout.Row) : Prop :=
  AnalyzeLayout.label r =
    default (AnalyzeLayout.feature r)
      (Py.get AnalyzeLayout.feature_labels (AnalyzeLayout.feature r)) /\
  AnalyzeLayout.values r =
    map (value_of sites_data (AnalyzeLayout.feature r)) (Py.keys sites_data) /\
  exists hi lo,
    Py.max (AnalyzeLayout.values r) = inr hi /\
    Py.min (AnalyzeLayout.values r) = inr lo /\
    AnalyzeLayout.variance r = (hi - lo)%Q /\
    AnalyzeLayout.marker r =
      AnalyzeLayout.marker_of (AnalyzeLayout.variance r).

(** An insight as collected from row [r]: the row's label and variance, and
    for each extreme the first site in [site_names] order that attains it,
    with the value found there. *)
Definition insight_ok (site_names : list string) (r : AnalyzeLayout.Row)
    (i : AnalyzeLayout.Insight) : Prop :=
  AnalyzeLayout.insight_feature i = AnalyzeLayout.label r /\
  AnalyzeLayout.insight_variance i = AnalyzeLayout.variance r /\
  exists kmax kmin,
    site_names !! kmax = Some (AnalyzeLayout.max_site i) /\
    site_names !! kmin = Some (AnalyzeLayout.min_site i) /\
    first_extreme Qlt (AnalyzeLayout.values r) kmax
      (AnalyzeLayout.max_val i) /\
    first_extreme (fun a b => (b < a)%Q) (AnalyzeLayout.values r) kmin
      (AnalyzeLayout.min_val i).

Definition good (r : AnalyzeLayout.Row) : bool :=
  Py.Qltb 0.3 (AnalyzeLayout.variance r).


Definition box (x y w h : Q) : Doc.BBox :=
  {| Doc.x := x; Doc.y := y; Doc.w := w; Doc.h := h |}.

(** A [div] without text and without styles. *)
Definition plain (b : Doc.BBox) : Doc.Element :=
  {| Doc.tag := Some "div"; Doc.textContent := None;
     Doc.styles := None; Doc.bbox := b |}.

(** A [div] whose only style is its padding. *)
Definition padded (b : Doc.BBox) (p : string) : Doc.Element :=
  {| Doc.tag := Some "div"; Doc.textContent := None;
     Doc.styles := Some {| Doc.padding := Some p;
                           Doc.backgroundImage := None |};
     Doc.bbox := b |}.

Definition viewport_of (width height : Q) : Doc.Meta :=
  {| Doc.viewport := {| Doc.width := width; Doc.height := height |} |}.

(** A [vector_data.json] with the given names and values. *)
Definition vector_doc (names : list string) (interp : gmap string Q)
    : Doc.VectorData :=
  {| Doc.globalStyleVec := Some
       {| Doc.interpretable := Some interp;
          Doc.metadata := Some {| Doc.featureNames := Some names |} |} |}.

(** Three sites that score one feature 0.831, 0.841 and 0.2. *)
Definition three_sites (f : string)
    : list (string * AnalyzeLayout.SiteFeatures) :=
  [ ("A", Some {[ f := 0.831%Q ]});
    ("B", Some {[ f := 0.841%Q ]});
    ("C", Some {[ f := 0.2%Q ]}) ].

(** A [vector_data.json] with the single feature [spacing_density_score]. *)
Definition density_doc (v : Q) : Doc.VectorData :=
  {| Doc.globalStyleVec := Some
       {| Doc.interpretable := Some {[ "0" := v ]};
          Doc.metadata := Some
            {| Doc.featureNames := Some ["spacing_density_score"] |} |} |}.

(** An artifact directory that holds the runs of Stripe and CNN and lacks
    the run of Monzo. *)
Definition monzo_missing (run_id : string) : option Doc.VectorData :=
  if String.eqb run_id "2025-10-02T13-03-18-205Z_4b76f711_stripe-com"
  then Some (density_doc 0.831)
  else if String.eqb run_id "2025-10-02T13-09-20-742Z_14fe0555_cnn-com"
  then Some (density_doc 0.2)
  else None.





(** The seven rules of the personality summary, in the order of the source:
    key, high cutoff, high label, low cutoff, low label. *)
Definition trait_rules : list (string * Q * string * Q * string) :=
  [ ("spacing_whitespace_ratio", 0.7%Q, "Generous whitespace",
       0.4%Q, "Tight spacing");
    ("spacing_density_score", 0.8%Q, "Dense content",
       0.5%Q, "Minimal content");
    ("shape_shadow_depth", 0.3%Q, "Elevated (shadows)",
       0.1%Q, "Flat design");
    ("shape_border_heaviness", 0.3%Q, "Heavy borders/dividers",
       0.1%Q, "Minimal borders");
    ("brand_color_saturation_energy", 0.5%Q, "Vibrant colors",
       0.2%Q, "Muted palette");
    ("spacing_padding_consistency", 0.7%Q, "Systematic spacing",
       0.3%Q, "Variable spacing");
    ("spacing_image_text_balance", 0.5%Q, "Image-heavy",
       0.1%Q, "Text-focused") ].

Definition rule_key (r : string * Q * string * Q * string) : string :=
  let '(key, _, _, _, _) := r in key.
Definition rule_high (r : string * Q * string * Q * string) : Q :=
  let '(_, high, _, _, _) := r in high.
Definition rule_low (r : string * Q * string * Q * string) : Q :=
  let '(_, _, _, low, _) := r in low.
Definition rule_low_label (r : string * Q * string * Q * string) : string :=
  let '(_, _, _, _, low_label) := r in low_label.

(** What the loading loop of the heatmap keeps of one site: its name and
    features when the load succeeds, nothing when it raises. *)
Definition loaded (artifacts : string -> option Doc.VectorData)
    (s : string * string) : option (string * gmap string Q) :=
  match Heatmap.load_features artifacts (fst s) with
  | inr features => Some (snd s, features)
  | inl _ => None
  end.



(** ** Lemmas *)

(** ** Substrings *)

Section Substring.
Import Py.

Lemma append_cons (c : ascii) (s t : string) :
  (String c s ++ t)%string = String c (s ++ t)%string.
Proof. reflexivity. Qed.

Lemma append_nil (t : string) : (EmptyString ++ t)%string = t.
Proof. reflexivity. Qed.

Lemma prefix_app (kw name : string) :
  String.prefix kw name = true <-> exists post, name = (kw ++ post)%string.
Proof.
  revert name. induction kw as [|c kw IH]; intros name; simpl.
  - split; [intros _; exists name; reflexivity | intros _; destruct name; reflexivity].
  - destruct name as [|d name]; simpl.
    + split; [discriminate | intros [post H]; discriminate].
    + destruct (Ascii.ascii_dec c d) as [->|Hne].
      * rewrite IH. split; intros [post H]; exists post;
          rewrite append_cons in *; congruence.
      * split; [discriminate |].
        intros [post H]. rewrite append_cons in H. congruence.
Qed.

Lemma contains_substring (kw name : string) :
  contains kw name = true <->
  exists pre post, name = (pre ++ kw ++ post)%string.
Proof.
  induction name as [|c name IH].
  - change (contains kw EmptyString)
      with (String.prefix kw EmptyString || false).
    rewrite orb_false_r, prefix_app. split.
    + intros [post H]. exists EmptyString, post. exact H.
    + intros [pre [post H]]. destruct pre; [eauto | discriminate].
  - change (contains kw (String c name))
      with (String.prefix kw (String c name) || contains kw name).
    rewrite orb_true_iff, prefix_app, IH. split.
    + intros [[post H] | [pre [post H]]].
      * exists EmptyString, post. exact H.
      * exists (String c pre), post. rewrite append_cons. congruence.
    + intros [pre [post H]].
      destruct pre as [|d pre]; [rewrite append_nil in H | rewrite append_cons in H].
      * left. eauto.
      * right. exists pre, post. congruence.
Qed.
End Substring.


Section Extract.
Import Py Doc.

Lemma any_keyword_in_canonical (name : string) :
  any_keyword_in name = true <-> canonical name.
Proof.
  unfold any_keyword_in, canonical. rewrite existsb_exists. split.
  - intros [kw [Hin Hc]]. apply contains_substring in Hc as [pre [post ->]].
    exists kw, pre, post. split; [by apply list_elem_of_In | reflexivity].
  - intros [kw [pre [post [Hin ->]]]]. exists kw.
    split; [by apply list_elem_of_In |].
    apply contains_substring. eauto.
Qed.

Context {V : Type} (entry : nat -> Q -> V).


End Extract.

Section Overlap.
Import Py Doc DeepCompare.

Lemma inner_loop_fold {E St} (visit : E -> E -> St -> St) s1 nb acc :
  inner_loop visit s1 nb acc =
  fold_left (fun a p => visit (fst p) (snd p) a) (map (pair s1) nb) acc.
Proof. revert acc. induction nb as [|s2 nb IH]; intros acc; simpl; auto. Qed.

Lemma overlap_loops_fold {E St} (visit : E -> E -> St -> St) styles init :
  overlap_loops visit styles init =
  fold_left (fun a p => visit (fst p) (snd p) a) (visits styles) init.
Proof.
  unfold overlap_loops, visits.
  generalize (enumerate (slice 0 100 styles)) as anchors. intros anchors.
  revert init. induction anchors as [|[i s1] anchors IH]; intros init.
  - reflexivity.
  - simpl. rewrite fold_left_app, <- inner_loop_fold. apply IH.
Qed.

Lemma fold_left_log {A B} (l : list (A * B)) (log : list (A * B)) :
  fold_left (fun a p => a ++ [(fst p, snd p)]) l log = log ++ l.
Proof.
  revert log. induction l as [|[i j] l IH]; intros log; simpl.
  - by rewrite app_nil_r.
  - rewrite IH, <- app_assoc. reflexivity.
Qed.

Lemma examined_pairs_visits n : examined_pairs n = visits (seq 0 n).
Proof.
  unfold examined_pairs. rewrite overlap_loops_fold.
  apply (fold_left_log (visits (seq 0 n)) []).
Qed.

Lemma fold_left_count {A} (f : A -> bool) (l : list A) (n : nat) :
  fold_left (fun a p => if f p then S a else a) l n =
  n + length (List.filter f l).
Proof.
  revert n. induction l as [|p l IH]; intros n; simpl; [lia |].
  rewrite IH. destruct (f p); simpl; lia.
Qed.

Lemma count_overlapping_pairs_visits styles :
  count_overlapping_pairs styles =
  length (List.filter (fun p => boxes_overlap (bbox (fst p)) (bbox (snd p)))
            (visits styles)).
Proof.
  unfold count_overlapping_pairs. rewrite overlap_loops_fold.
  unfold count_overlap. by rewrite fold_left_count.
Qed.

Lemma enumerate_from_map {A B} (f : A -> B) k (l : list A) :
  enumerate_from k (map f l) =
  map (fun a => (fst a, f (snd a))) (enumerate_from k l).
Proof.
  revert k. induction l as [|a l IH]; intros k; simpl; [done |].
  by rewrite IH.
Qed.

Lemma slice_map {A B} (f : A -> B) lo hi (l : list A) :
  slice lo hi (map f l) = map f (slice lo hi l).
Proof. unfold slice. by rewrite skipn_map, firstn_map. Qed.

Lemma visits_map {A B} (f : A -> B) (l : list A) :
  visits (map f l) = map (fun p => (f (fst p), f (snd p))) (visits l).
Proof.
  unfold visits, enumerate.
  rewrite length_map, slice_map, enumerate_from_map.
  generalize (enumerate_from 0 (slice 0 100 l)) as anchors.
  induction anchors as [|[i a] anchors IH]; simpl; [done |].
  rewrite map_app, IH, slice_map, !map_map. reflexivity.
Qed.

Lemma lookup_seq_map {A} (l : list A) :
  map Some l = map (fun i => l !! i) (seq 0 (length l)).
Proof.
  induction l as [|a l IH]; simpl; [done |].
  f_equal. rewrite IH, <- seq_shift, map_map. reflexivity.
Qed.

Lemma length_filter_map {A B} (f : A -> B) (p : B -> bool) (l : list A) :
  length (List.filter p (map f l)) = length (List.filter (fun a => p (f a)) l).
Proof.
  induction l as [|a l IH]; simpl; [done |].
  destruct (p (f a)); simpl; by rewrite IH.
Qed.

Lemma count_overlapping_pairs_examined styles :
  count_overlapping_pairs styles =
  length (List.filter (overlap_at styles) (examined_pairs (length styles))).
Proof.
  rewrite count_overlapping_pairs_visits, examined_pairs_visits.
  pose (test := fun p : option Element * option Element =>
    match fst p, snd p with
    | Some s1, Some s2 => boxes_overlap (bbox s1) (bbox s2)
    | _, _ => false
    end).
  transitivity (length (List.filter test (visits (map Some styles)))).
  - rewrite visits_map, length_filter_map. reflexivity.
  - rewrite lookup_seq_map, visits_map, length_filter_map. reflexivity.
Qed.

Lemma enumerate_from_seq k m :
  enumerate_from k (seq k m) = map (fun i => (i, i)) (seq k m).
Proof.
  revert k. induction m as [|m IH]; intros k; simpl; [done |].
  by rewrite IH.
Qed.

Lemma slice_seq lo hi n :
  slice lo hi (seq 0 n) = seq lo (Nat.min (hi - lo) (n - lo)).
Proof. unfold slice. by rewrite drop_seq, take_seq. Qed.

Lemma examined_pairs_window n :
  examined_pairs n =
  flat_map (fun i => map (pair i) (seq (i + 1) (Nat.min (i + 20) n - (i + 1))))
    (seq 0 (Nat.min 100 n)).
Proof.
  rewrite examined_pairs_visits. unfold visits, enumerate.
  rewrite slice_seq, length_seq, !Nat.sub_0_r, enumerate_from_seq.
  rewrite flat_map_concat_map, map_map, <- flat_map_concat_map.
  apply flat_map_ext. intros i. simpl. rewrite slice_seq.
  do 2 f_equal. lia.
Qed.

Lemma examined_pairs_elem n i j :
  (i, j) ∈ examined_pairs n <-> i < 100 /\ i + 1 <= j < Nat.min (i + 20) n.
Proof.
  rewrite examined_pairs_window, list_elem_of_In, in_flat_map. split.
  - intros [i' [Hi Hj]]. apply in_map_iff in Hj as [j' [Heq Hj]].
    injection Heq as -> ->. apply in_seq in Hi, Hj. lia.
  - intros [Hi Hj]. exists i. split; [apply in_seq; lia |].
    apply in_map. apply in_seq. lia.
Qed.

Lemma NoDup_flat_map_fst {A B} (f : A -> list (A * B)) (l : list A) :
  NoDup l -> (forall a, NoDup (f a)) ->
  (forall a p, p ∈ f a -> fst p = a) ->
  NoDup (flat_map f l).
Proof.
  intros Hl Hf Hfst. induction Hl as [|a l Ha Hl IH]; simpl; [constructor |].
  apply NoDup_app. split; [apply Hf |]. split; [| exact IH].
  intros p Hp Hp'. apply list_elem_of_In, in_flat_map in Hp' as [a' [Ha' Hp']].
  apply list_elem_of_In in Hp', Ha'.
  apply Hfst in Hp, Hp'. congruence.
Qed.

Lemma examined_pairs_NoDup n : NoDup (examined_pairs n).
Proof.
  rewrite examined_pairs_window. apply NoDup_flat_map_fst.
  - apply NoDup_seq.
  - intros i. apply (NoDup_fmap_2 _). apply NoDup_seq.
  - intros i p Hp. apply list_elem_of_In, in_map_iff in Hp as [j [<- _]].
    reflexivity.
Qed.
End Overlap.

Section Padding.
Import Py Doc DeepCompare.

Lemma mapM_inr {A B} (f : A -> result B) (l : list A) (bs : list B) :
  mapM f l = inr bs -> Forall2 (fun a b => f a = inr b) l bs.
Proof.
  revert bs. induction l as [|a l IH]; intros bs; simpl.
  - intros [= <-]. constructor.
  - destruct (f a) as [e|b] eqn:Hb; simpl; [discriminate |].
    destruct (mapM f l) as [e|bs'] eqn:Hbs; simpl; [discriminate |].
    intros [= <-]. constructor; [exact Hb | by apply IH].
Qed.

Lemma mapM_total {A B} (f : A -> result B) (l : list A) :
  (forall a, a ∈ l -> exists b, f a = inr b) ->
  exists bs, mapM f l = inr bs.
Proof.
  induction l as [|a l IH]; intros H; simpl; [by eexists |].
  destruct (H a) as [b Hb]; [by left |]. rewrite Hb. simpl.
  destruct IH as [bs Hbs]; [intros a' Ha'; apply H; by right |].
  rewrite Hbs. simpl. by eexists.
Qed.

Lemma keeps_chars (p : string) :
  keeps p = true ->
  forall c, c ∈ chars p -> isdigit_char c = true \/ c = "."%char.
Proof.
  unfold keeps, isdigit. intros H.
  assert (Hall : forallb_str isdigit_char (replace_dot p) = true)
    by (destruct (replace_dot p); [discriminate | exact H]).
  clear H. induction p as [|d p IH]; simpl in *; intros c Hc.
  - by apply elem_of_nil in Hc.
  - destruct (Ascii.eqb_spec d "."%char) as [->|Hne].
    + apply elem_of_cons in Hc as [->|Hc]; [by right | by apply IH].
    + simpl in Hall. apply andb_true_iff in Hall as [Hd Hall].
      apply elem_of_cons in Hc as [->|Hc]; [by left | by apply IH].
Qed.

Lemma keeps_no_minus (p : string) : "-"%char ∈ chars p -> keeps p = false.
Proof.
  intros Hin. destruct (keeps p) eqn:Hk; [| reflexivity].
  destruct (keeps_chars p Hk _ Hin) as [H | H]; discriminate.
Qed.

Lemma float_nonneg (p : string) (v : Q) : float p = inr v -> (0 <= v)%Q.
Proof.
  unfold float. destruct (cut_dot p) as [ip fp].
  destruct (_ && _); [| discriminate]. intros [= <-].
  unfold Qle. simpl. lia.
Qed.

Lemma parse_parts_elem (parts : list string) (vs : list Q) (v : Q) :
  parse_parts parts = inr vs -> v ∈ vs ->
  exists p, p ∈ parts /\ keeps p = true /\ float p = inr v.
Proof.
  unfold parse_parts. intros H Hv. apply mapM_inr in H.
  apply list_elem_of_lookup in Hv as [i Hi].
  destruct (Forall2_lookup_r _ _ _ _ _ H Hi) as (p & Hp & Hf).
  exists p. apply list_elem_of_lookup_2, list_elem_of_In, filter_In in Hp.
  destruct Hp as [Hp Hk]. apply list_elem_of_In in Hp. auto.
Qed.

Lemma padding_loop_elem (styles : list Element) :
  forall (acc pv : list Q) (v : Q),
  padding_loop styles acc = inr pv -> v ∈ pv ->
  v ∈ acc \/
  exists s p, s ∈ styles /\ p ∈ split (replace_px (padding_str s)) /\
              keeps p = true /\ float p = inr v.
Proof.
  induction styles as [|s styles IH]; intros acc pv v; simpl.
  - intros [= <-]. auto.
  - destruct (parse_parts _) as [e|vs] eqn:Hvs; simpl; [discriminate |].
    intros H Hv. destruct (IH _ _ _ H Hv) as [Hacc | (s' & p & Hs & Hp)].
    + apply elem_of_app in Hacc as [Hacc | Hnew]; [by left |].
      right. destruct (parse_parts_elem _ _ _ Hvs Hnew) as (p & Hp).
      exists s, p. split; [by left | exact Hp].
    + right. exists s', p. split; [by right | exact Hp].
Qed.

Lemma analyze_raw_elements_inr (styles : list Element) (meta : Meta)
    (r : RawStats) :
  analyze_raw_elements styles meta = inr r ->
  padding_loop styles [] = inr (padding_values r) /\
  overlapping_pairs r = count_overlapping_pairs styles /\
  viewport_area r = (width (viewport meta) * height (viewport meta))%Q /\
  total_element_area r = sum (map area styles) /\
  text_area r = sum (map area (List.filter is_text styles)) /\
  img_area r = sum (map area (List.filter is_img styles)) /\
  truediv (total_element_area r) (viewport_area r) = inr (density_ratio r) /\
  (if Qltb 0 (text_area r) then truediv (img_area r) (text_area r)
   else ret 0%Q) = inr (img_text_ratio r).
Proof.
  unfold analyze_raw_elements.
  destruct (padding_loop styles []) as [e|pv]; simpl; [discriminate |].
  destruct (truediv _ _) as [e|dr] eqn:Hdr; simpl; [discriminate |].
  destruct (if Qltb 0 _ then _ else _) as [e|itr] eqn:Hitr; simpl;
    [discriminate |].
  destruct (match pv with [] => _ | _ => _ end) as [e|pm]; simpl;
    [discriminate |].
  destruct (match pv with [] => _ | _ => _ end) as [e|ps]; simpl;
    [discriminate |].
  intros [= <-]. simpl. auto 10.
Qed.

Lemma analyze_raw_elements_total (styles : list Element) (meta : Meta)
    (pv : list Q) :
  padding_loop styles [] = inr pv ->
  Qeq_bool (width (viewport meta) * height (viewport meta)) 0 = false ->
  exists r, analyze_raw_elements styles meta = inr r.
Proof.
  intros Hpv Hvp. unfold analyze_raw_elements. rewrite Hpv. simpl.
  unfold truediv at 1. rewrite Hvp. simpl.
  destruct (Qltb 0 (sum (map area (List.filter is_text styles)))) eqn:Hta.
  - unfold truediv at 1.
    destruct (Qeq_bool (sum (map area (List.filter is_text styles))) 0)
      eqn:Hz.
    + apply Qeq_bool_iff in Hz. unfold Qltb in Hta.
      apply negb_true_iff in Hta.
      assert (Qle_bool (sum (map area (List.filter is_text styles))) 0 = true)
        by (apply Qle_bool_iff; lra).
      congruence.
    + simpl. destruct pv as [|v pv]; simpl; by eexists.
  - simpl. destruct pv as [|v pv]; simpl; by eexists.
Qed.

Lemma float_raises (p : string) (e : exn) : float p = inl e -> e = ValueError.
Proof.
  unfold float. destruct (cut_dot p). destruct (_ && _); [discriminate |].
  by intros [= <-].
Qed.

Lemma parse_parts_raises (parts : list string) (e : exn) :
  parse_parts parts = inl e -> e = ValueError.
Proof.
  unfold parse_parts. generalize (List.filter keeps parts) as l.
  induction l as [|p l IH]; simpl; [discriminate |].
  destruct (float p) as [e'|v] eqn:Hf; simpl.
  - intros [= <-]. by apply float_raises in Hf.
  - destruct (mapM float l) as [e'|vs]; simpl; [| discriminate].
    intros [= <-]. by apply IH.
Qed.

Lemma padding_loop_raises (styles : list Element) (acc : list Q) (e : exn) :
  padding_loop styles acc = inl e -> e = ValueError.
Proof.
  revert acc. induction styles as [|s styles IH]; intros acc; simpl;
    [discriminate |].
  destruct (parse_parts _) as [e'|vs] eqn:Hvs; simpl.
  - intros [= <-]. by apply parse_parts_raises in Hvs.
  - apply IH.
Qed.

Lemma analyze_raw_elements_zero_viewport (styles : list Element)
    (meta : Meta) :
  (width (viewport meta) * height (viewport meta) == 0)%Q ->
  analyze_raw_elements styles meta = inl ZeroDivisionError \/
  analyze_raw_elements styles meta = inl ValueError.
Proof.
  intros Hz. apply Qeq_bool_iff in Hz. unfold analyze_raw_elements.
  destruct (padding_loop styles []) as [e|pv] eqn:Hpv; simpl.
  - right. f_equal. by apply padding_loop_raises in Hpv.
  - left. unfold truediv at 1. rewrite Hz. reflexivity.
Qed.
End Padding.

Section Numbers.
Import Py.

Lemma Qltb_lt (a b : Q) : Qltb a b = true <-> (a < b)%Q.
Proof.
  unfold Qltb. rewrite negb_true_iff. split.
  - intros H. apply Qnot_le_lt. intros Hle.
    apply Qle_bool_iff in Hle. congruence.
  - intros H. apply not_true_is_false. intros Hle.
    apply Qle_bool_iff in Hle. lra.
Qed.

Lemma Qltb_ge (a b : Q) : Qltb a b = false <-> (b <= a)%Q.
Proof.
  unfold Qltb. rewrite negb_false_iff. apply Qle_bool_iff.
Qed.


Lemma fold_max_first (v : Q) (l : list Q) :
  exists k,
    first_extreme Qlt (v :: l) k
      (fold_left (fun m v' => if Qltb m v' then v' else m) l v).
Proof.
  induction l as [|x l IH] using rev_ind.
  - exists 0. simpl. split; [reflexivity |]. split.
    + intros v' Hv'. apply list_elem_of_singleton in Hv' as ->. lra.
    + intros k' v' Hk'. lia.
  - destruct IH as (k & Hk & Hall & Hbefore). rewrite fold_left_app. simpl.
    set (best := fold_left _ l v) in *.
    destruct (Qltb best x) eqn:Hlt.
    + apply Qltb_lt in Hlt. exists (length (v :: l)). split; [| split].
      * change (v :: l ++ [x]) with ((v :: l) ++ [x]).
        by rewrite lookup_app_r, Nat.sub_diag.
      * intros v' Hv'. change (v :: l ++ [x]) with ((v :: l) ++ [x]) in Hv'.
        apply elem_of_app in Hv' as [Hv' | Hv'].
        -- apply Hall in Hv'. lra.
        -- apply list_elem_of_singleton in Hv' as ->. lra.
      * intros k' v' Hk' Hv'.
        change (v :: l ++ [x]) with ((v :: l) ++ [x]) in Hv'.
        rewrite lookup_app_l in Hv' by exact Hk'.
        apply list_elem_of_lookup_2, Hall in Hv'. lra.
    + apply Qltb_ge in Hlt. exists k.
      assert (Hlen : k < length (v :: l)) by (by eapply lookup_lt_Some).
      split; [| split].
      * change (v :: l ++ [x]) with ((v :: l) ++ [x]).
        by rewrite lookup_app_l.
      * intros v' Hv'. change (v :: l ++ [x]) with ((v :: l) ++ [x]) in Hv'.
        apply elem_of_app in Hv' as [Hv' | Hv'].
        -- by apply Hall.
        -- apply list_elem_of_singleton in Hv' as ->. lra.
      * intros k' v' Hk' Hv'.
        change (v :: l ++ [x]) with ((v :: l) ++ [x]) in Hv'.
        rewrite lookup_app_l in Hv' by lia. by eapply Hbefore.
Qed.

Lemma fold_min_first (v : Q) (l : list Q) :
  exists k,
    first_extreme (fun a b => (b < a)%Q) (v :: l) k
      (fold_left (fun m v' => if Qltb v' m then v' else m) l v).
Proof.
  induction l as [|x l IH] using rev_ind.
  - exists 0. simpl. split; [reflexivity |]. split.
    + intros v' Hv'. apply list_elem_of_singleton in Hv' as ->. lra.
    + intros k' v' Hk'. lia.
  - destruct IH as (k & Hk & Hall & Hbefore). rewrite fold_left_app. simpl.
    set (best := fold_left _ l v) in *.
    destruct (Qltb x best) eqn:Hlt.
    + apply Qltb_lt in Hlt. exists (length (v :: l)). split; [| split].
      * change (v :: l ++ [x]) with ((v :: l) ++ [x]).
        by rewrite lookup_app_r, Nat.sub_diag.
      * intros v' Hv'. change (v :: l ++ [x]) with ((v :: l) ++ [x]) in Hv'.
        apply elem_of_app in Hv' as [Hv' | Hv'].
        -- apply Hall in Hv'. lra.
        -- apply list_elem_of_singleton in Hv' as ->. lra.
      * intros k' v' Hk' Hv'.
        change (v :: l ++ [x]) with ((v :: l) ++ [x]) in Hv'.
        rewrite lookup_app_l in Hv' by exact Hk'.
        apply list_elem_of_lookup_2, Hall in Hv'. lra.
    + apply Qltb_ge in Hlt. exists k.
      assert (Hlen : k < length (v :: l)) by (by eapply lookup_lt_Some).
      split; [| split].
      * change (v :: l ++ [x]) with ((v :: l) ++ [x]).
        by rewrite lookup_app_l.
      * intros v' Hv'. change (v :: l ++ [x]) with ((v :: l) ++ [x]) in Hv'.
        apply elem_of_app in Hv' as [Hv' | Hv'].
        -- by apply Hall.
        -- apply list_elem_of_singleton in Hv' as ->. lra.
      * intros k' v' Hk' Hv'.
        change (v :: l ++ [x]) with ((v :: l) ++ [x]) in Hv'.
        rewrite lookup_app_l in Hv' by lia. by eapply Hbefore.
Qed.

Lemma max_first (l : list Q) :
  l <> [] -> exists hi k, max l = inr hi /\ first_extreme Qlt l k hi.
Proof.
  destruct l as [|v l]; [done |]. intros _.
  destruct (fold_max_first v l) as [k Hk]. by eexists _, k.
Qed.

Lemma min_first (l : list Q) :
  l <> [] ->
  exists lo k, min l = inr lo /\ first_extreme (fun a b => (b < a)%Q) l k lo.
Proof.
  destruct l as [|v l]; [done |]. intros _.
  destruct (fold_min_first v l) as [k Hk]. by eexists _, k.
Qed.

Lemma index_first (l : list Q) (k : nat) (v : Q) :
  l !! k = Some v ->
  (forall k' v', k' < k -> l !! k' = Some v' -> ~ (v' == v)%Q) ->
  index v l = inr k.
Proof.
  revert k. induction l as [|x l IH]; intros k Hk Hbefore.
  - by rewrite lookup_nil in Hk.
  - destruct k as [|k]; simpl in *.
    + injection Hk as ->.
      assert (Qeq_bool v v = true) as -> by (by apply Qeq_bool_iff).
      reflexivity.
    + destruct (Qeq_bool x v) eqn:Hx.
      * apply Qeq_bool_iff in Hx. by destruct (Hbefore 0 x ltac:(lia) eq_refl).
      * rewrite (IH k); [reflexivity | exact Hk |].
        intros k' v' Hk' Hv'. apply (Hbefore (S k') v'); [lia | exact Hv'].
Qed.
End Numbers.

Section Sorting.
Import Py.
Context {A : Type} (key : A -> Q).

Lemma insert_desc_perm (a : A) (l : list A) : insert_desc key a l ≡ₚ a :: l.
Proof.
  induction l as [|b l IH]; simpl; [done |].
  destruct (Qltb (key a) (key b)); [| done].
  rewrite IH. apply Permutation_swap.
Qed.



Lemma insert_desc_sorted (a : A) (l : list A) :
  StronglySorted (desc key) l -> StronglySorted (desc key) (insert_desc key a l).
Proof.
  induction l as [|b l IH]; intros Hs; simpl.
  - repeat constructor.
  - apply StronglySorted_inv in Hs as [Hs Hb].
    destruct (Qltb (key a) (key b)) eqn:Hlt.
    + apply Qltb_lt in Hlt. constructor; [by apply IH |].
      rewrite insert_desc_perm. constructor; [unfold desc; lra | exact Hb].
    + apply Qltb_ge in Hlt. constructor; [by constructor |].
      constructor; [exact Hlt |].
      eapply Forall_impl; [exact Hb |]. unfold desc. intros c Hc. lra.
Qed.

Lemma sort_desc_sorted (l : list A) : StronglySorted (desc key) (sort_desc key l).
Proof.
  induction l as [|a l IH]; simpl; [constructor |].
  by apply insert_desc_sorted.
Qed.
End Sorting.

Section SortedStrings.
Import Py.


End SortedStrings.

Section Comparator.
Import Py Doc AnalyzeLayout.
Implicit Types sd : list (string * SiteFeatures).

Lemma get_keys {V} (d : list (string * V)) (k : string) :
  k ∈ keys d -> is_Some (get d k).
Proof.
  induction d as [|[k' v] d IH]; simpl; intros Hk.
  - by apply elem_of_nil in Hk.
  - destruct (String.eqb_spec k' k) as [->|Hne]; [eauto |].
    apply elem_of_cons in Hk as [->|Hk]; [done | by apply IH].
Qed.

Lemma site_value_spec sd (f site : string) :
  site ∈ keys sd -> site_value sd f site = inr (value_of sd f site).
Proof.
  intros Hk. destruct (get_keys sd site Hk) as [features Hg].
  unfold site_value, value_of. rewrite Hg. simpl.
  destruct features as [m|]; simpl; [| reflexivity].
  case_bool_decide as Hm; simpl.
  - subst m. by rewrite lookup_empty.
  - by destruct (m !! f).
Qed.

Lemma mapM_pure {A B} (f : A -> result B) (g : A -> B) (l : list A) :
  (forall a, a ∈ l -> f a = inr (g a)) -> mapM f l = inr (map g l).
Proof.
  induction l as [|a l IH]; intros H; simpl; [done |].
  rewrite (H a) by (by left). simpl.
  rewrite IH by (intros a' Ha'; apply H; by right). reflexivity.
Qed.

Lemma getitem_lt {A} (l : list A) (i : nat) :
  i < length l -> exists a, getitem l i = inr a /\ l !! i = Some a.
Proof.
  intros Hi. unfold getitem.
  destruct (lookup_lt_is_Some_2 l i Hi) as [a Ha].
  exists a. change (nth_error l i) with (l !! i) || idtac.
  split; [| exact Ha].
  assert (nth_error l i = Some a) as ->; [| reflexivity].
  revert i Hi Ha. induction l as [|x l IH]; intros [|i] Hi Ha; simpl in *;
    try done. apply IH; [lia | exact Ha].
Qed.

Lemma getitem_ge {A} (l : list A) (i : nat) :
  length l <= i -> getitem l i = inl IndexError.
Proof.
  intros Hi. unfold getitem.
  assert (nth_error l i = None) as ->; [| reflexivity].
  by apply nth_error_None.
Qed.

Lemma feature_row_ok sd (f : string) :
  3 <= length sd ->
  exists r, feature_row sd (keys sd) f = inr r /\ feature r = f /\ row_ok sd r.
Proof.
  intros Hlen. unfold feature_row.
  rewrite (mapM_pure _ (value_of sd f));
    [| intros site Hs; by apply site_value_spec].
  simpl. set (vs := map (value_of sd f) (keys sd)).
  assert (Hvs : length vs = length sd)
    by (unfold vs, keys; by rewrite !length_map).
  assert (Hne : vs <> []) by (intros E; rewrite E in Hvs; simpl in Hvs; lia).
  destruct (max_first vs Hne) as (hi & kmax & Hmax & _).
  destruct (min_first vs Hne) as (lo & kmin & Hmin & _).
  rewrite Hmax, Hmin. simpl.
  destruct (getitem_lt vs 0) as (v0 & -> & _); [lia |].
  destruct (getitem_lt vs 1) as (v1 & -> & _); [lia |].
  destruct (getitem_lt vs 2) as (v2 & -> & _); [lia |].
  simpl. eexists. split; [reflexivity |]. split; [reflexivity |].
  unfold row_ok. simpl. split; [reflexivity |]. split; [reflexivity |].
  exists hi, lo. auto.
Qed.

Lemma insight_of_ok (site_names : list string) (r : Row) :
  values r <> [] -> length (values r) = length site_names ->
  exists i, insight_of site_names r = inr i /\ insight_ok site_names r i.
Proof.
  intros Hne Hlen. unfold insight_of.
  destruct (max_first _ Hne) as (hi & kmax & Hmax & Hfmax).
  destruct (min_first _ Hne) as (lo & kmin & Hmin & Hfmin).
  rewrite Hmax. simpl.
  rewrite (index_first (values r) kmax hi); [| apply Hfmax |].
  2:{ intros k' v' Hk' Hv'. destruct Hfmax as (_ & _ & Hb).
      specialize (Hb k' v' Hk' Hv'). intros E. rewrite E in Hb. lra. }
  simpl. rewrite Hmin. simpl.
  rewrite (index_first (values r) kmin lo); [| apply Hfmin |].
  2:{ intros k' v' Hk' Hv'. destruct Hfmin as (_ & _ & Hb).
      specialize (Hb k' v' Hk' Hv'). simpl in Hb. intros E.
      rewrite E in Hb. lra. }
  simpl.
  assert (Hkmax : kmax < length (values r))
    by (eapply lookup_lt_Some; apply Hfmax).
  assert (Hkmin : kmin < length (values r))
    by (eapply lookup_lt_Some; apply Hfmin).
  destruct (getitem_lt site_names kmax) as (smax & -> & Hsmax); [lia |].
  destruct (getitem_lt (values r) kmax) as (vmax & -> & Hvmax); [lia |].
  destruct (getitem_lt site_names kmin) as (smin & -> & Hsmin); [lia |].
  destruct (getitem_lt (values r) kmin) as (vmin & -> & Hvmin); [lia |].
  simpl. eexists. split; [reflexivity |].
  unfold insight_ok. simpl. split; [reflexivity |]. split; [reflexivity |].
  exists kmax, kmin.
  assert (vmax = hi) as -> by (destruct Hfmax as [H _]; congruence).
  assert (vmin = lo) as -> by (destruct Hfmin as [H _]; congruence).
  auto.
Qed.

Lemma feature_loop_spec sd (fs : list string) :
  3 <= length sd ->
  forall (table : list Row) (insights : list Insight),
  exists rows ins,
    feature_loop sd (keys sd) fs table insights
      = inr (table ++ rows, insights ++ ins) /\
    map feature rows = fs /\
    Forall (row_ok sd) rows /\
    Forall2 (insight_ok (keys sd)) (List.filter good rows) ins.
Proof.
  intros Hlen. induction fs as [|f fs IH]; intros table insights; simpl.
  - exists [], []. rewrite !app_nil_r. repeat split; constructor.
  - destruct (feature_row_ok sd f Hlen) as (r & -> & Hf & Hr). simpl.
    assert (Hvs : length (values r) = length (keys sd)).
    { destruct Hr as (_ & -> & _). by rewrite length_map. }
    assert (Hne : values r <> []).
    { intros E. rewrite E in Hvs. unfold keys in Hvs.
      rewrite length_map in Hvs. simpl in Hvs. lia. }
    destruct (Qltb 0.3 (variance r)) eqn:Hgood.
    + destruct (insight_of_ok (keys sd) r Hne Hvs) as (i & -> & Hi). simpl.
      destruct (IH (table ++ [r]) (insights ++ [i]))
        as (rows & ins & -> & Hfs & Hrows & Hins).
      exists (r :: rows), (i :: ins). rewrite <- !app_assoc. simpl.
      split; [reflexivity |]. split; [by rewrite Hf, Hfs |].
      split; [by constructor |].
      unfold good at 1. rewrite Hgood. by constructor.
    + destruct (IH (table ++ [r]) insights)
        as (rows & ins & -> & Hfs & Hrows & Hins).
      exists (r :: rows), ins. rewrite <- !app_assoc. simpl.
      split; [reflexivity |]. split; [by rewrite Hf, Hfs |].
      split; [by constructor |].
      unfold good at 1. by rewrite Hgood.
Qed.

Lemma compare_sites_spec sd :
  3 <= length sd ->
  exists c ins,
    compare_sites sd = inr c /\
    map feature (table c) = sorted (elements (collect_features sd ∅)) /\
    Forall (row_ok sd) (table c) /\
    Forall2 (insight_ok (keys sd)) (List.filter good (table c)) ins /\
    insights c = sort_desc insight_variance ins /\
    printed c = slice 0 5 (insights c) /\
    summary c = summary_loop sd.
Proof.
  intros Hlen. unfold compare_sites.
  assert (Hk : length (keys sd) = length sd)
    by (unfold keys; by rewrite length_map).
  destruct (getitem_lt (keys sd) 0) as (s0 & -> & _); [lia |].
  destruct (getitem_lt (keys sd) 1) as (s1 & -> & _); [lia |].
  destruct (getitem_lt (keys sd) 2) as (s2 & -> & _); [lia |].
  simpl.
  destruct (feature_loop_spec sd
              (sorted (elements (collect_features sd ∅))) Hlen [] [])
    as (rows & ins & -> & Hfs & Hrows & Hins).
  simpl. eexists _, ins. split; [reflexivity |]. simpl. auto 10.
Qed.

Lemma compare_sites_short sd :
  length sd < 3 -> compare_sites sd = inl IndexError.
Proof.
  intros Hlen. unfold compare_sites.
  assert (Hk : length (keys sd) = length sd)
    by (unfold keys; by rewrite length_map).
  destruct sd as [|a [|b [|c sd]]]; simpl in *; try reflexivity. lia.
Qed.

Lemma collect_features_elem sd (acc : gset string) (f : string) :
  f ∈ collect_features sd acc <->
  f ∈ acc \/ exists site m, (site, Some m) ∈ sd /\ is_Some (m !! f).
Proof.
  revert acc. induction sd as [|[site features] sd IH]; intros acc; simpl.
  - split; [auto |]. intros [H | (site & m & H & _)]; [done |].
    by apply elem_of_nil in H.
  - rewrite IH. split.
    + intros [Hacc | (site' & m & Hin & Hm)].
      * destruct features as [m|]; simpl in Hacc.
        -- case_bool_decide; simpl in Hacc; [by left |].
           apply elem_of_union in Hacc as [Hacc | Hd]; [by left |].
           right. exists site, m. split; [by left | by apply elem_of_dom].
        -- by left.
      * right. exists site', m. split; [by right | done].
    + intros [Hacc | (site' & m & Hin & Hm)].
      * left. destruct (truthy_features features); set_solver.
      * apply elem_of_cons in Hin as [[= <- <-] | Hin].
        -- left. simpl. case_bool_decide as He; simpl.
           ++ subst m. rewrite lookup_empty in Hm. by destruct Hm.
           ++ apply elem_of_union. right. by apply elem_of_dom.
        -- right. eauto.
Qed.
End Comparator.

Section Markers.
Import Py AnalyzeLayout.





End Markers.

Section Sites.
Import Py Doc AnalyzeLayout.

Lemma setitem_fresh {V} (k : string) (v : V) (d : list (string * V)) :
  k ∉ keys d -> setitem k v d = d ++ [(k, v)].
Proof.
  induction d as [|[k' v'] d IH]; simpl; intros Hk; [done |].
  apply not_elem_of_cons in Hk as [Hne Hk].
  destruct (String.eqb_spec k' k) as [->|_]; [done |].
  by rewrite IH.
Qed.




End Sites.

Section ComparatorClaims.
Import Py Doc AnalyzeLayout.
Implicit Types sd : list (string * SiteFeatures).



End ComparatorClaims.

Section InsightClaims.
Import Py Doc AnalyzeLayout.
Implicit Types sd : list (string * SiteFeatures).






End InsightClaims.

Section SiteClaims.
Import Py Doc AnalyzeLayout.
Implicit Types sd : list (string * SiteFeatures).





Lemma compare_sites_all_empty sd :
  3 <= length sd ->
  (forall site features, (site, features) ∈ sd ->
     features = None \/ features = Some ∅) ->
  exists c, compare_sites sd = inr c /\ table c = [] /\ insights c = [].
Proof.
  intros Hlen Hempty.
  destruct (compare_sites_spec sd Hlen)
    as (c & ins & Hc & Hfs & Hrows & Hins & Hsort & _).
  exists c. split; [exact Hc |].
  assert (Hnone : collect_features sd ∅ = ∅).
  { apply leibniz_equiv. intros f. rewrite collect_features_elem. split.
    - intros [H | (site & m & Hin & Hm)]; [done |].
      destruct (Hempty _ _ Hin) as [H | H]; [discriminate |].
      injection H as ->. rewrite lookup_empty in Hm. by destruct Hm.
    - intros H. by apply not_elem_of_empty in H. }
  rewrite Hnone, elements_empty in Hfs. simpl in Hfs.
  apply map_eq_nil in Hfs. split; [exact Hfs |].
  rewrite Hfs in Hins. simpl in Hins. apply Forall2_nil_inv_l in Hins.
  by rewrite Hsort, Hins.
Qed.
End SiteClaims.

Section RawClaims.
Import Py Doc DeepCompare.

(** Claim C1 (code_bug). With a viewport area equal to zero,
    [analyze_raw_elements] never returns a result: it raises
    [ZeroDivisionError] at [total_element_area / viewport_area], or
    [ValueError] earlier, in the padding loop. No [density_ratio] of 0 is
    produced; only [img_text_ratio] and the padding statistics are guarded. *)
Theorem zero_viewport_raises (styles : list Element) (meta : Meta) :
  (width (viewport meta) * height (viewport meta) == 0)%Q ->
  analyze_raw_elements styles meta = inl ZeroDivisionError \/
  analyze_raw_elements styles meta = inl ValueError.
Proof. apply analyze_raw_elements_zero_viewport. Qed.

Lemma zero_viewport_raises_witness :
  (width (viewport (viewport_of 0 600)) *
   height (viewport (viewport_of 0 600)) == 0)%Q /\
  (analyze_raw_elements [] (viewport_of 0 600) = inl ZeroDivisionError \/
   analyze_raw_elements [] (viewport_of 0 600) = inl ValueError).
Proof.
  split; [reflexivity |].
  apply (zero_viewport_raises [] (viewport_of 0 600)). reflexivity.
Defined.

(** Claim C3, as stated, fails: for the two boxes (0,0,400,600) and
    (400,0,400,600) in an 800x600 viewport the analyzer does not return an
    overlapping-pairs count of 0. *)
Lemma side_by_side_boxes_overlap_counted :
  ~ (exists r,
       analyze_raw_elements
         [plain (box 0 0 400 600); plain (box 400 0 400 600)]
         (viewport_of 800 600) = inr r /\
       (density_ratio r == 1)%Q /\ overlapping_pairs r = 0).
Proof.
  intros (r & Hr & _ & Ho). vm_compute in Hr. injection Hr as <-.
  simpl in Ho. discriminate Ho.
Qed.

(** Claim C3 (amended). For a viewport of 800x600 and exactly two elements
    with the boxes (0,0,400,600) and (400,0,400,600), whatever their tag and
    text, the analyzer returns [density_ratio] equal to 1 and an
    overlapping-pairs count of 1, as soon as their padding parses: boxes that
    share an edge satisfy [boxes_overlap], whose comparisons are strict. *)
Theorem side_by_side_boxes (e1 e2 : Element) (pv : list Q) :
  bbox e1 = box 0 0 400 600 ->
  bbox e2 = box 400 0 400 600 ->
  padding_loop [e1; e2] [] = inr pv ->
  exists r,
    analyze_raw_elements [e1; e2] (viewport_of 800 600) = inr r /\
    (density_ratio r == 1)%Q /\ overlapping_pairs r = 1.
Proof.
  intros Hb1 Hb2 Hpv.
  destruct (analyze_raw_elements_total [e1; e2] (viewport_of 800 600) pv Hpv)
    as [r Hr]; [reflexivity |].
  exists r. split; [exact Hr |].
  destruct (analyze_raw_elements_inr _ _ _ Hr)
    as (_ & Ho & Hva & Hta & _ & _ & Hdr & _).
  split.
  - rewrite Hva, Hta in Hdr. unfold sum, area in Hdr. simpl in Hdr.
    rewrite Hb1, Hb2 in Hdr. unfold truediv in Hdr. simpl in Hdr.
    injection Hdr as <-. reflexivity.
  - rewrite Ho. unfold count_overlapping_pairs, overlap_loops. simpl.
    unfold count_overlap. rewrite Hb1, Hb2. reflexivity.
Qed.

Lemma side_by_side_boxes_witness :
  exists r,
    analyze_raw_elements
      [plain (box 0 0 400 600); plain (box 400 0 400 600)]
      (viewport_of 800 600) = inr r /\
    (density_ratio r == 1)%Q /\ overlapping_pairs r = 1.
Proof.
  apply (side_by_side_boxes (plain (box 0 0 400 600))
           (plain (box 400 0 400 600)) [0; 0; 0; 0; 0; 0; 0; 0]%Q);
    reflexivity.
Defined.
End RawClaims.

Section MoreRawClaims.
Import Py Doc DeepCompare.

Lemma padding_loop_second_period (styles : list Element) (s : Element) :
  s ∈ styles -> padding_str s = "1.2.3px" ->
  forall acc, padding_loop styles acc = inl ValueError.
Proof.
  intros Hin Hs. induction styles as [|s' styles IH]; intros acc.
  - by apply elem_of_nil in Hin.
  - simpl. destruct (parse_parts _) as [e|vs] eqn:Hvs; simpl.
    + f_equal. by apply parse_parts_raises in Hvs.
    + apply elem_of_cons in Hin as [<-|Hin]; [| by apply IH].
      rewrite Hs in Hvs. vm_compute in Hvs. discriminate Hvs.
Qed.

(** Claim C5 (code_bug). Padding parsing raises: the filter
    [p.replace('.', '').isdigit()] keeps the token [1.2.3], on which [float]
    raises [ValueError]; any element list with an element whose padding is
    [1.2.3px] makes the padding loop, and with it [analyze_raw_elements],
    raise [ValueError]. *)
Theorem padding_second_period_raises (styles : list Element) (s : Element)
    (meta : Meta) :
  s ∈ styles -> padding_str s = "1.2.3px" ->
  keeps "1.2.3" = true /\
  float "1.2.3" = inl ValueError /\
  padding_loop styles [] = inl ValueError /\
  analyze_raw_elements styles meta = inl ValueError.
Proof.
  intros Hin Hs. split; [reflexivity |]. split; [reflexivity |].
  pose proof (padding_loop_second_period styles s Hin Hs []) as Hl.
  split; [exact Hl |]. unfold analyze_raw_elements. by rewrite Hl.
Qed.

Lemma padding_second_period_raises_witness :
  keeps "1.2.3" = true /\
  float "1.2.3" = inl ValueError /\
  padding_loop [padded (box 0 0 10 10) "1.2.3px"] [] = inl ValueError /\
  analyze_raw_elements [padded (box 0 0 10 10) "1.2.3px"]
    (viewport_of 800 600) = inl ValueError.
Proof.
  apply (padding_second_period_raises
           [padded (box 0 0 10 10) "1.2.3px"]
           (padded (box 0 0 10 10) "1.2.3px") (viewport_of 800 600)).
  - apply list_elem_of_In. simpl. left. reflexivity.
  - reflexivity.
Defined.

(** Claim C10. A token is kept only if it consists solely of digit
    characters and periods; a token with a minus sign is dropped; every
    value of the pooled sequence is the [float] of a kept token of some
    element and is non-negative, so no negative padding value enters
    [padding_values], from which the mean and the standard deviation are
    computed; [-5px 3px] pools [3] only. *)
Theorem negative_padding_dropped :
  (forall p, keeps p = true ->
     forall c, c ∈ chars p -> isdigit_char c = true \/ c = "."%char) /\
  (forall p, "-"%char ∈ chars p -> keeps p = false) /\
  (forall styles pv v,
     padding_loop styles [] = inr pv -> v ∈ pv ->
     (0 <= v)%Q /\
     exists s p, s ∈ styles /\ p ∈ split (replace_px (padding_str s)) /\
                 keeps p = true /\ float p = inr v) /\
  (forall styles meta r,
     analyze_raw_elements styles meta = inr r ->
     Forall (fun v => (0 <= v)%Q) (padding_values r)) /\
  (forall b, split (replace_px "-5px 3px") = ["-5"; "3"] /\
             padding_loop [padded b "-5px 3px"] [] = inr [3%Q]).
Proof.
  split; [exact keeps_chars |]. split; [exact keeps_no_minus |].
  assert (Hloop : forall styles pv v,
     padding_loop styles [] = inr pv -> v ∈ pv ->
     (0 <= v)%Q /\
     exists s p, s ∈ styles /\ p ∈ split (replace_px (padding_str s)) /\
                 keeps p = true /\ float p = inr v).
  { intros styles pv v Hpv Hv.
    destruct (padding_loop_elem styles [] pv v Hpv Hv)
      as [Hnil | (s & p & Hs & Hp & Hk & Hf)].
    - by apply elem_of_nil in Hnil.
    - split; [by eapply float_nonneg | by exists s, p]. }
  split; [exact Hloop |]. split.
  - intros styles meta r Hr. apply analyze_raw_elements_inr in Hr as [Hpv _].
    apply Forall_forall. intros v Hv. by apply (Hloop styles _ v Hpv).
  - intros b. split; reflexivity.
Qed.

Lemma negative_padding_dropped_witness :
  keeps "-5" = false /\
  (0 <= 3)%Q /\
  padding_loop [padded (box 0 0 10 10) "-5px 3px"] [] = inr [3%Q].
Proof.
  destruct negative_padding_dropped as (_ & Hminus & Hloop & _ & Hex).
  split.
  - apply Hminus. apply list_elem_of_In. simpl. left. reflexivity.
  - split.
    + apply (Hloop [padded (box 0 0 10 10) "-5px 3px"] [3%Q] 3%Q).
      * reflexivity.
      * apply list_elem_of_In. simpl. left. reflexivity.
    + apply (Hex (box 0 0 10 10)).
Defined.

Lemma examined_pairs_anchor_bound (n i : nat) :
  length (List.filter (fun p => Nat.eqb (fst p) i) (examined_pairs n)) <= 19.
Proof.
  set (l := List.filter (fun p => Nat.eqb (fst p) i) (examined_pairs n)).
  assert (Hin : forall p, p ∈ l -> fst p = i /\ i + 1 <= snd p < i + 20).
  { intros [i' j] Hp. apply list_elem_of_In, filter_In in Hp as [Hp Hi].
    apply Nat.eqb_eq in Hi. simpl in Hi. subst i'.
    apply list_elem_of_In, examined_pairs_elem in Hp. simpl. lia. }
  assert (Hnd : NoDup l).
  { apply NoDup_ListNoDup, List.NoDup_filter, NoDup_ListNoDup,
      examined_pairs_NoDup. }
  assert (Hnd' : NoDup (snd <$> l)).
  { apply NoDup_fmap_2_strong; [| exact Hnd].
    intros [i1 j1] [i2 j2] H1 H2 Heq. simpl in Heq.
    apply Hin in H1, H2. simpl in *. f_equal; lia. }
  replace (length l) with (length (snd <$> l)) by apply length_fmap.
  replace 19 with (length (seq (i + 1) 19)) by apply length_seq.
  apply NoDup_incl_length; [by apply NoDup_ListNoDup |].
  intros j Hj. apply in_map_iff in Hj as (p & <- & Hp).
  apply list_elem_of_In, Hin in Hp. apply in_seq. lia.
Qed.

(** Claim C9. The position pairs the overlap loops visit on a list of [n]
    elements are exactly the pairs [(i, j)] with [i < 100] and
    [i + 1 <= j < min (i + 20) n], each visited once, at most 19 for an
    anchor; the element pairs handed to the loop body are the elements at
    those positions; the count is the number of those pairs whose boxes
    satisfy [boxes_overlap]; and [analyze_raw_elements] reports that
    count. *)
Theorem overlap_sample_window (styles : list Element) :
  (forall i j, (i, j) ∈ examined_pairs (length styles) <->
     i < 100 /\ i + 1 <= j < Nat.min (i + 20) (length styles)) /\
  NoDup (examined_pairs (length styles)) /\
  (forall i,
     length (List.filter (fun p => Nat.eqb (fst p) i)
               (examined_pairs (length styles))) <= 19) /\
  map (fun p => (Some (fst p), Some (snd p)))
    (overlap_loops (fun s1 s2 log => log ++ [(s1, s2)]) styles []) =
  map (fun p => (styles !! fst p, styles !! snd p))
    (examined_pairs (length styles)) /\
  count_overlapping_pairs styles =
    length (List.filter (overlap_at styles)
              (examined_pairs (length styles))) /\
  forall meta,
    match analyze_raw_elements styles meta with
    | inr r => overlapping_pairs r = count_overlapping_pairs styles
    | inl _ => True
    end.
Proof.
  split; [intros i j; apply examined_pairs_elem |].
  split; [apply examined_pairs_NoDup |].
  split; [intros i; apply examined_pairs_anchor_bound |].
  split; [| split].
  - rewrite overlap_loops_fold, (fold_left_log (visits styles) []).
    simpl. rewrite examined_pairs_visits.
    rewrite <- (visits_map Some styles), lookup_seq_map, visits_map.
    reflexivity.
  - apply count_overlapping_pairs_examined.
  - intros meta.
    destruct (analyze_raw_elements styles meta) as [e|r] eqn:Hr; [done |].
    by apply analyze_raw_elements_inr in Hr as (_ & Ho & _).
Qed.
End MoreRawClaims.

Section ExtractClaims.
Import Py Doc.


End ExtractClaims.

Section Witnesses.
Import Py Doc AnalyzeLayout.




End Witnesses.

(** ** Further properties of the scripts *)

Section OverlapExtras.
Import Py Doc DeepCompare.

(** Property X1. [boxes_overlap] does not depend on the order of its two
    boxes. *)
Theorem boxes_overlap_sym (bbox1 bbox2 : BBox) :
  boxes_overlap bbox1 bbox2 = boxes_overlap bbox2 bbox1.
Proof.
  unfold boxes_overlap.
  destruct (Qltb (x bbox1 + w bbox1) (x bbox2)),
           (Qltb (x bbox2 + w bbox2) (x bbox1)),
           (Qltb (y bbox1 + h bbox1) (y bbox2)),
           (Qltb (y bbox2 + h bbox2) (y bbox1)); reflexivity.
Qed.




Lemma length_flat_map_le {A B} (f : A -> list B) (c : nat) (l : list A) :
  (forall a, length (f a) <= c) -> length (flat_map f l) <= c * length l.
Proof.
  intros Hf. induction l as [|a l IH]; simpl; [lia |].
  rewrite length_app. specialize (Hf a). lia.
Qed.

Lemma examined_pairs_length (n : nat) :
  length (examined_pairs n) <= 19 * Nat.min 100 n.
Proof.
  rewrite examined_pairs_window.
  etransitivity; [apply (length_flat_map_le _ 19) |].
  - intros i. rewrite length_map, length_seq. lia.
  - by rewrite length_seq.
Qed.

Lemma flat_map_ext_in {A B} (f g : A -> list B) (l : list A) :
  (forall a, In a l -> f a = g a) -> flat_map f l = flat_map g l.
Proof.
  induction l as [|a l IH]; intros H; simpl; [done |].
  rewrite (H a) by (by left). rewrite IH; [done |].
  intros a' Ha'. apply H. by right.
Qed.

Lemma examined_pairs_cap (n : nat) :
  examined_pairs n = examined_pairs (Nat.min 119 n).
Proof.
  rewrite !examined_pairs_window.
  replace (Nat.min 100 (Nat.min 119 n)) with (Nat.min 100 n) by lia.
  apply flat_map_ext_in. intros i Hi. apply in_seq in Hi.
  do 2 f_equal. lia.
Qed.

(** Property X3. The overlap count is at most 19 per anchor, hence at most
    1900, and it ignores every element from position 119 on: it is the count
    of the first 119 elements. *)
Theorem overlap_sample_bounded (styles : list Element) :
  count_overlapping_pairs styles <= 19 * Nat.min 100 (length styles) /\
  count_overlapping_pairs styles <= 1900 /\
  count_overlapping_pairs styles = count_overlapping_pairs (take 119 styles).
Proof.
  assert (Hb : count_overlapping_pairs styles
               <= 19 * Nat.min 100 (length styles)).
  { rewrite count_overlapping_pairs_examined.
    etransitivity; [| apply examined_pairs_length].
    apply NoDup_incl_length.
    - apply List.NoDup_filter, NoDup_ListNoDup, examined_pairs_NoDup.
    - intros p Hp. by apply filter_In in Hp as [Hp _]. }
  split; [exact Hb |]. split; [lia |].
  rewrite !count_overlapping_pairs_examined, length_take.
  rewrite (examined_pairs_cap (length styles)).
  f_equal. apply filter_ext_in. intros [i j] Hp.
  apply list_elem_of_In, examined_pairs_elem in Hp.
  unfold overlap_at. simpl.
  rewrite !lookup_take_lt by lia. reflexivity.
Qed.
End OverlapExtras.

Section TextExtras.
Import Py Doc DeepCompare.

Lemma lstrip_cases (t : string) :
  (lstrip t = EmptyString /\ forall c, c ∈ chars t -> isspace c = true) \/
  (exists c rest, lstrip t = String c rest /\ isspace c = false /\
                  c ∈ chars t).
Proof.
  induction t as [|d t IH]; simpl.
  - left. split; [done |]. intros c Hc. by apply elem_of_nil in Hc.
  - destruct (isspace d) eqn:Hd.
    + destruct IH as [[He Hall] | (c & rest & He & Hc & Hin)].
      * left. split; [exact He |]. intros c Hc.
        apply elem_of_cons in Hc as [->|Hc]; [exact Hd | by apply Hall].
      * right. exists c, rest. split; [exact He |]. split; [exact Hc |].
        by right.
    + right. exists d, t. split; [done |]. split; [exact Hd | by left].
Qed.

Lemma rstrip_nonempty (c : ascii) (rest : string) :
  isspace c = false -> rstrip (String c rest) <> EmptyString.
Proof.
  intros Hc. simpl. destruct (rstrip rest); [by rewrite Hc | done].
Qed.

(** Property X10. An element is a text element exactly when its
    [textContent] has a character that is not whitespace. *)
Theorem is_text_nonspace (s : Element) :
  is_text s = true <->
  exists t c, textContent s = Some t /\ c ∈ chars t /\ isspace c = false.
Proof.
  unfold is_text. destruct (textContent s) as [t|]; [| split].
  - rewrite andb_true_iff, Nat.ltb_lt. unfold strip. split.
    + intros [_ Hlen].
      destruct (lstrip_cases t) as [[He _] | (c & rest & He & Hc & Hin)].
      * rewrite He in Hlen. simpl in Hlen. lia.
      * exists t, c. auto.
    + intros (t' & c & [= <-] & Hin & Hc). split.
      * destruct t; [by apply elem_of_nil in Hin | done].
      * destruct (lstrip_cases t) as [[_ Hall] | (c' & rest & He & Hc' & _)].
        -- apply Hall in Hin. congruence.
        -- rewrite He. pose proof (rstrip_nonempty c' rest Hc') as Hne.
           destruct (rstrip (String c' rest)); [done | simpl; lia].
  - discriminate.
  - intros (t & c & H & _). discriminate.
Qed.
End TextExtras.

Section StatsExtras.
Import Py Doc DeepCompare.

Lemma fold_left_Qplus (l : list Q) (acc : Q) :
  (fold_left Qplus l acc == acc + sum l)%Q.
Proof.
  unfold sum. revert acc. induction l as [|a l IH]; intros acc; simpl.
  - ring.
  - rewrite (IH (acc + a)%Q), (IH (0 + a)%Q). ring.
Qed.

Lemma sum_cons (a : Q) (l : list Q) : (sum (a :: l) == a + sum l)%Q.
Proof.
  unfold sum at 1. simpl. rewrite fold_left_Qplus. ring.
Qed.

Lemma sum_nonneg (l : list Q) :
  Forall (fun v => (0 <= v)%Q) l -> (0 <= sum l)%Q.
Proof.
  induction 1 as [|a l Ha Hl IH]; [unfold sum; simpl; lra |].
  pose proof (sum_cons a l). lra.
Qed.

Lemma sum_filter_le {A} (g : A -> Q) (f : A -> bool) (l : list A) :
  (forall a, a ∈ l -> (0 <= g a)%Q) ->
  (0 <= sum (map g (List.filter f l)) <= sum (map g l))%Q.
Proof.
  induction l as [|a l IH]; intros Hg; cbn [List.filter map].
  - unfold sum. simpl. lra.
  - assert (Ha : (0 <= g a)%Q) by (apply Hg; by left).
    destruct IH as [IH0 IH1]; [intros a' Ha'; apply Hg; by right |].
    pose proof (sum_cons (g a) (map g l)).
    destruct (f a); cbn [map].
    + pose proof (sum_cons (g a) (map g (List.filter f l))). lra.
    + lra.
Qed.

Lemma div_nonneg (a b : Q) : (0 <= a)%Q -> (0 < b)%Q -> (0 <= a / b)%Q.
Proof.
  intros Ha Hb. unfold Qdiv. apply Qmult_le_0_compat; [exact Ha |].
  apply Qinv_le_0_compat. lra.
Qed.

Lemma square_nonneg (a : Q) : (0 <= a ^ 2)%Q.
Proof.
  change (a ^ 2)%Q with (a * a)%Q.
  destruct (Qlt_le_dec a 0) as [Hneg | Hpos].
  - assert (H : (0 <= (- a) * (- a))%Q) by (apply Qmult_le_0_compat; lra).
    assert (E : (a * a == (- a) * (- a))%Q) by ring.
    rewrite E. exact H.
  - by apply Qmult_le_0_compat.
Qed.

Lemma len_pos (values : list Q) : values <> [] -> (0 < len values)%Q.
Proof.
  intros H. destruct values as [|v values]; [done |].
  unfold len, Qlt. simpl. lia.
Qed.

Lemma truediv_len (a : Q) (values : list Q) :
  values <> [] -> truediv a (len values) = inr (a / len values)%Q.
Proof.
  intros H. unfold truediv.
  destruct (Qeq_bool (len values) 0) eqn:Hz; [| reflexivity].
  apply Qeq_bool_iff in Hz. pose proof (len_pos values H). lra.
Qed.

Lemma std_squared_nonneg (values : list Q) :
  exists v, calculate_std_squared values = inr v /\ (0 <= v)%Q /\
            (values = [] -> v = 0%Q).
Proof.
  destruct values as [|a l].
  - exists 0%Q. simpl. split; [reflexivity |]. split; [lra | done].
  - unfold calculate_std_squared.
    rewrite (truediv_len _ (a :: l)) by done. unfold bind.
    rewrite (truediv_len _ (a :: l)) by done.
    eexists. split; [reflexivity |]. split; [| done].
    apply div_nonneg; [| by apply len_pos].
    apply sum_nonneg, Forall_forall. intros v Hv.
    apply list_elem_of_In, in_map_iff in Hv as (x & <- & _).
    apply square_nonneg.
Qed.



Lemma img_text_ratio_cases (styles : list Element) (meta : Meta)
    (r : RawStats) :
  analyze_raw_elements styles meta = inr r ->
  (~ (0 < text_area r)%Q -> img_text_ratio r = 0%Q) /\
  ((0 < text_area r)%Q -> img_text_ratio r = (img_area r / text_area r)%Q).
Proof.
  intros Hr.
  apply analyze_raw_elements_inr in Hr as (_ & _ & _ & _ & _ & _ & _ & Hit).
  destruct (Qltb 0 (text_area r)) eqn:Hlt.
  - apply Qltb_lt in Hlt. split; [tauto |]. intros _.
    unfold truediv in Hit.
    destruct (Qeq_bool (text_area r) 0) eqn:Hz.
    + apply Qeq_bool_iff in Hz. lra.
    + by injection Hit as <-.
  - apply Qltb_ge in Hlt. split; [| intros; lra].
    intros _. by injection Hit as <-.
Qed.



(** Property X7. For boxes of non-negative width and height and a positive
    viewport area, a result counts [len(styles)] elements, no more image or
    text elements than that, image and text areas between 0 and the total
    area, and non-negative [density_ratio] and [img_text_ratio]. *)
Theorem analyze_raw_elements_nonneg (styles : list Element) (meta : Meta)
    (r : RawStats) :
  (forall s, s ∈ styles -> (0 <= w (bbox s))%Q /\ (0 <= h (bbox s))%Q) ->
  (0 < width (viewport meta) * height (viewport meta))%Q ->
  analyze_raw_elements styles meta = inr r ->
  total_elements r = length styles /\
  img_elements r <= total_elements r /\
  text_elements r <= total_elements r /\
  (0 <= img_area r <= total_element_area r)%Q /\
  (0 <= text_area r <= total_element_area r)%Q /\
  (0 <= density_ratio r)%Q /\
  (0 <= img_text_ratio r)%Q.
Proof.
  intros Hbox Hvp Hr.
  pose proof (img_text_ratio_cases _ _ _ Hr) as [Hit0 Hit1].
  pose proof (analyze_raw_elements_inr _ _ _ Hr)
    as (_ & _ & Hva & Hta & Htx & Him & Hdr & _).
  assert (Harea : forall s, s ∈ styles -> (0 <= area s)%Q).
  { intros s Hs. destruct (Hbox s Hs). unfold area.
    by apply Qmult_le_0_compat. }
  assert (Hcounts : total_elements r = length styles /\
                    img_elements r = length (List.filter is_img styles) /\
                    text_elements r = length (List.filter is_text styles)).
  { unfold analyze_raw_elements in Hr.
    destruct (padding_loop styles []); simpl in Hr; [discriminate Hr |].
    destruct (truediv _ _); simpl in Hr; [discriminate Hr |].
    destruct (if Qltb 0 _ then _ else _); simpl in Hr; [discriminate Hr |].
    destruct (match l with [] => _ | _ => _ end); simpl in Hr;
      [discriminate Hr |].
    destruct (match l with [] => _ | _ => _ end); simpl in Hr;
      [discriminate Hr |].
    injection Hr as <-. simpl. auto. }
  destruct Hcounts as (Hn & Hni & Hnt).
  pose proof (sum_filter_le area is_img styles Harea) as Hi.
  pose proof (sum_filter_le area is_text styles Harea) as Ht.
  rewrite <- Him, <- Hta in Hi. rewrite <- Htx, <- Hta in Ht.
  split; [exact Hn |].
  split; [rewrite Hn, Hni; apply filter_length_le |].
  split; [rewrite Hn, Hnt; apply filter_length_le |].
  split; [exact Hi |]. split; [exact Ht |]. split.
  - unfold truediv in Hdr. rewrite Hva in Hdr.
    destruct (Qeq_bool _ 0); [discriminate Hdr |]. injection Hdr as <-.
    apply div_nonneg; [lra | exact Hvp].
  - destruct (Qlt_le_dec 0 (text_area r)) as [Hpos | Hle].
    + rewrite (Hit1 Hpos). apply div_nonneg; [lra | exact Hpos].
    + rewrite Hit0 by lra. lra.
Qed.

Lemma analyze_raw_elements_nonneg_witness :
  exists r,
    analyze_raw_elements [plain (box 0 0 400 600)] (viewport_of 800 600)
      = inr r /\
    (0 <= density_ratio r)%Q.
Proof.
  destruct (analyze_raw_elements [plain (box 0 0 400 600)]
              (viewport_of 800 600)) as [e|r] eqn:Hr.
  - vm_compute in Hr. discriminate Hr.
  - exists r. split; [reflexivity |].
    apply (analyze_raw_elements_nonneg _ _ r) in Hr as Hn.
    + apply Hn.
    + intros s Hs. apply list_elem_of_In in Hs. simpl in Hs.
      destruct Hs as [<- | []]. simpl. split; lra.
    + simpl. lra.
Defined.
End StatsExtras.

Section PaddingExtras.
Import Py Doc DeepCompare.

Lemma analyze_raw_elements_padding (styles : list Element) (meta : Meta)
    (r : RawStats) :
  analyze_raw_elements styles meta = inr r ->
  match padding_values r with
  | [] => padding_mean r = 0%Q /\ padding_std_squared r = 0%Q
  | _ =>
      padding_mean r = (sum (padding_values r) / len (padding_values r))%Q /\
      calculate_std_squared (padding_values r)
        = inr (padding_std_squared r)
  end.
Proof.
  unfold analyze_raw_elements.
  destruct (padding_loop styles []) as [e|pv]; simpl; [intros H; discriminate H |].
  destruct (truediv _ _) as [e|dr]; simpl; [intros H; discriminate H |].
  destruct (if Qltb 0 _ then _ else _) as [e|itr]; simpl;
    [intros H; discriminate H |].
  destruct pv as [|v pv].
  - simpl. intros [= <-]. simpl. auto.
  - rewrite (truediv_len _ (v :: pv)) by done. cbn [bind].
    destruct (calculate_std_squared (v :: pv)) as [e|ps] eqn:Hps;
      cbn [bind]; [intros H; discriminate H |].
    intros [= <-]. cbn [padding_values padding_mean padding_std_squared].
    auto.
Qed.

Lemma padding_values_nonneg (styles : list Element) (pv : list Q) :
  padding_loop styles [] = inr pv -> Forall (fun v => (0 <= v)%Q) pv.
Proof.
  intros Hpv. apply Forall_forall. intros v Hv.
  destruct (padding_loop_elem styles [] pv v Hpv Hv)
    as [Hnil | (s & p & _ & _ & _ & Hf)].
  - by apply elem_of_nil in Hnil.
  - by eapply float_nonneg.
Qed.

(** Property X9. In a result, [padding_mean] and the value under the root
    of [padding_std] are non-negative, and both are 0 when no padding value
    was pooled. *)
Theorem padding_statistics_nonneg (styles : list Element) (meta : Meta)
    (r : RawStats) :
  analyze_raw_elements styles meta = inr r ->
  (0 <= padding_mean r)%Q /\ (0 <= padding_std_squared r)%Q /\
  (padding_values r = [] ->
   padding_mean r = 0%Q /\ padding_std_squared r = 0%Q).
Proof.
  intros Hr. pose proof (analyze_raw_elements_padding _ _ _ Hr) as Hp.
  apply analyze_raw_elements_inr in Hr as [Hpv _].
  apply padding_values_nonneg in Hpv.
  destruct (padding_values r) as [|v pv] eqn:E.
  - destruct Hp as [-> ->]. split; [lra |]. split; [lra | done].
  - destruct Hp as [-> Hs]. split; [| split; [| done]].
    + apply div_nonneg; [by apply sum_nonneg | by apply len_pos].
    + destruct (std_squared_nonneg (v :: pv)) as (v' & Hv' & Hn & _).
      congruence.
Qed.

Lemma padding_statistics_nonneg_witness :
  exists r,
    analyze_raw_elements [padded (box 0 0 10 10) "10px 20px 10px 20px"]
      (viewport_of 800 600) = inr r /\
    (0 <= padding_mean r)%Q.
Proof.
  destruct (analyze_raw_elements
              [padded (box 0 0 10 10) "10px 20px 10px 20px"]
              (viewport_of 800 600)) as [e|r] eqn:Hr.
  - vm_compute in Hr. discriminate Hr.
  - exists r. split; [reflexivity |].
    apply (padding_statistics_nonneg _ _ r Hr).
Defined.

Lemma padding_loop_default (styles : list Element) :
  (forall s, s ∈ styles -> padding_str s = "0px 0px 0px 0px") ->
  forall acc,
  padding_loop styles acc =
    inr (acc ++ concat (map (fun _ => [0; 0; 0; 0]%Q) styles)).
Proof.
  induction styles as [|s styles IH]; intros Hs acc; simpl.
  - by rewrite app_nil_r.
  - rewrite (Hs s) by (by left).
    change (parse_parts (split (replace_px "0px 0px 0px 0px")))
      with (@inr exn _ [0; 0; 0; 0]%Q).
    cbn [bind]. rewrite IH by (intros s' Hs'; apply Hs; by right).
    by rewrite <- app_assoc.
Qed.

(** Property X8. Elements without a [padding] style fall back to
    [0px 0px 0px 0px]: a list of such elements pools four zeros for each
    element and never raises. *)
Theorem default_padding_zeros (styles : list Element) :
  (forall s, s ∈ styles ->
     Doc.styles s = None \/
     exists st, Doc.styles s = Some st /\ padding st = None) ->
  exists pv,
    padding_loop styles [] = inr pv /\
    length pv = 4 * length styles /\
    Forall (fun v => v = 0%Q) pv.
Proof.
  intros Hs. eexists. split.
  - apply padding_loop_default. intros s Hin. unfold padding_str.
    destruct (Hs s Hin) as [-> | (st & -> & ->)]; reflexivity.
  - simpl. split.
    + clear Hs. induction styles as [|s styles IH]; simpl; [done |].
      rewrite IH. lia.
    + clear Hs. induction styles as [|s styles IH]; simpl; [constructor |].
      repeat (constructor; [reflexivity |]). exact IH.
Qed.

Lemma default_padding_zeros_witness :
  exists pv,
    padding_loop [plain (box 0 0 10 10); plain (box 5 5 10 10)] [] = inr pv /\
    length pv = 8.
Proof.
  destruct (default_padding_zeros
              [plain (box 0 0 10 10); plain (box 5 5 10 10)])
    as (pv & Hpv & Hlen & _).
  - intros s Hs. left. apply list_elem_of_In in Hs. simpl in Hs.
    destruct Hs as [<- | [<- | []]]; reflexivity.
  - exists pv. split; [exact Hpv | exact Hlen].
Defined.
End PaddingExtras.

Section ExtractExtras.
Import Py Doc.
Context {V : Type} (entry : nat -> Q -> V).

Lemma extract_loop_inr (interp : gmap string Q) (names : list string) :
  forall (k : nat) (acc m : gmap string V),
  extract_loop entry interp (enumerate_from k names) acc = inr m ->
  (forall name, name ∉ names -> m !! name = acc !! name) /\
  (forall j name,
     names !! j = Some name -> any_keyword_in name = true ->
     is_Some (interp !! str (k + j))) /\
  (forall j name,
     names !! j = Some name -> any_keyword_in name = true ->
     (forall j', j < j' -> names !! j' <> Some name) ->
     exists v, interp !! str (k + j) = Some v /\
               m !! name = Some (entry (k + j) v)).
Proof.
  induction names as [|name names IH]; intros k acc m; simpl.
  - intros [= <-]. split; [done |].
    split; intros j n Hj; by rewrite lookup_nil in Hj.
  - destruct (any_keyword_in name) eqn:Hkw.
    + destruct (interp !! str k) as [v|] eqn:Hv; simpl;
        [| intros H; discriminate H].
      intros Hm. destruct (IH _ _ _ Hm) as (Hout & Hpres & Hlast).
      split; [| split].
      * intros n Hn. apply not_elem_of_cons in Hn as [Hne Hn].
        rewrite Hout by exact Hn. apply lookup_insert_ne. congruence.
      * intros [|j] n Hj Hn; simpl in Hj.
        -- rewrite Nat.add_0_r, Hv. eauto.
        -- replace (k + S j) with (S k + j) by lia. by eapply Hpres.
      * intros [|j] n Hj Hn Hafter; simpl in Hj.
        -- injection Hj as <-. exists v. rewrite Nat.add_0_r.
           split; [exact Hv |]. rewrite Hout; [apply lookup_insert_eq |].
           intros Hin. apply list_elem_of_lookup in Hin as [j' Hj'].
           apply (Hafter (S j')); [lia | exact Hj'].
        -- replace (k + S j) with (S k + j) by lia.
           apply Hlast; [exact Hj | exact Hn |].
           intros j' Hlt. apply (Hafter (S j')). lia.
    + intros Hm. destruct (IH _ _ _ Hm) as (Hout & Hpres & Hlast).
      split; [| split].
      * intros n Hn. apply not_elem_of_cons in Hn as [Hne Hn]. by apply Hout.
      * intros [|j] n Hj Hn; simpl in Hj.
        -- injection Hj as <-. congruence.
        -- replace (k + S j) with (S k + j) by lia. by eapply Hpres.
      * intros [|j] n Hj Hn Hafter; simpl in Hj.
        -- injection Hj as <-. congruence.
        -- replace (k + S j) with (S k + j) by lia.
           apply Hlast; [exact Hj | exact Hn |].
           intros j' Hlt. apply (Hafter (S j')). lia.
Qed.




Lemma extract_unfold (d : VectorData) (gsv : GlobalStyleVec) (md : Metadata)
    (interp : gmap string Q) (names : list string) :
  globalStyleVec d = Some gsv -> interpretable gsv = Some interp ->
  metadata gsv = Some md -> featureNames md = Some names ->
  extract entry d = extract_loop entry interp (enumerate names) ∅.
Proof.
  intros Hg Hi Hm Hf. unfold extract. rewrite Hg. simpl. rewrite Hi. simpl.
  rewrite Hm. simpl. by rewrite Hf.
Qed.
End ExtractExtras.

Section ExtractTheorems.
Import Py Doc.


(** Property X12. When a name is repeated in [featureNames], the value kept
    for it is the one at its last index. *)
Theorem extract_last_occurrence_wins (d : VectorData) (gsv : GlobalStyleVec)
    (md : Metadata) (interp : gmap string Q) (names : list string)
    (features : gmap string Q) (i : nat) (name : string) :
  globalStyleVec d = Some gsv -> interpretable gsv = Some interp ->
  metadata gsv = Some md -> featureNames md = Some names ->
  AnalyzeLayout.extract_layout_features d = inr features ->
  names !! i = Some name -> canonical name ->
  (forall j, i < j -> names !! j <> Some name) ->
  is_Some (features !! name) /\ features !! name = interp !! str i.
Proof.
  intros Hg Hi Hm Hf He Hin Hc Hafter.
  unfold AnalyzeLayout.extract_layout_features in He.
  rewrite (extract_unfold _ d gsv md interp names Hg Hi Hm Hf) in He.
  apply extract_loop_inr in He as (_ & _ & Hlast).
  apply any_keyword_in_canonical in Hc.
  destruct (Hlast i name Hin Hc Hafter) as (v & Hv & Hfv).
  simpl in Hv. rewrite Hfv, Hv. split; [eauto | reflexivity].
Qed.

Lemma extract_last_occurrence_wins_witness :
  exists features : gmap string Q,
    AnalyzeLayout.extract_layout_features
      (vector_doc ["shape_shadow_depth"; "shape_shadow_depth"]
         {[ "0" := 0.1%Q; "1" := 0.7%Q ]}) = inr features /\
    features !! "shape_shadow_depth" = Some 0.7%Q.
Proof.
  destruct (AnalyzeLayout.extract_layout_features
              (vector_doc ["shape_shadow_depth"; "shape_shadow_depth"]
                 {[ "0" := 0.1%Q; "1" := 0.7%Q ]})) as [e|features] eqn:He.
  - vm_compute in He. discriminate He.
  - exists features. split; [reflexivity |].
    destruct (extract_last_occurrence_wins
                (vector_doc ["shape_shadow_depth"; "shape_shadow_depth"]
                   {[ "0" := 0.1%Q; "1" := 0.7%Q ]})
                _ _ {[ "0" := 0.1%Q; "1" := 0.7%Q ]}
                ["shape_shadow_depth"; "shape_shadow_depth"]
                features 1 "shape_shadow_depth"
                eq_refl eq_refl eq_refl eq_refl He eq_refl) as [_ Hv].
    + apply any_keyword_in_canonical. vm_compute. reflexivity.
    + intros [|[|j]] Hj; [lia | lia | simpl; discriminate].
    + rewrite Hv. vm_compute. reflexivity.
Defined.
End ExtractTheorems.

Section ComparatorExtras.
Import Py Doc AnalyzeLayout.
Implicit Types sd : list (string * SiteFeatures).

Lemma compare_sites_inr sd (c : Comparison) :
  compare_sites sd = inr c ->
  3 <= length sd /\
  exists ins,
    map feature (table c) = sorted (elements (collect_features sd ∅)) /\
    Forall (row_ok sd) (table c) /\
    Forall2 (insight_ok (keys sd)) (List.filter good (table c)) ins /\
    insights c = sort_desc insight_variance ins /\
    printed c = slice 0 5 (insights c) /\
    summary c = summary_loop sd.
Proof.
  intros Hc. destruct (le_lt_dec 3 (length sd)) as [Hlen | Hlen].
  - split; [exact Hlen |].
    destruct (compare_sites_spec sd Hlen) as (c' & ins & Hc' & H).
    assert (c' = c) as -> by congruence. by exists ins.
  - apply compare_sites_short in Hlen. congruence.
Qed.

Lemma summary_loop_nil sd :
  (forall site features, (site, features) ∈ sd ->
     features = None \/ features = Some ∅) ->
  summary_loop sd = [].
Proof.
  induction sd as [|[site features] sd IH]; intros H; simpl; [done |].
  destruct (H site features) as [-> | ->]; [by left | |]; simpl.
  - apply IH. intros s f Hin. apply (H s f). by right.
  - rewrite bool_decide_eq_true_2 by done. simpl.
    apply IH. intros s f Hin. apply (H s f). by right.
Qed.

(** Property X13. [compare_sites] returns exactly on inputs of three or
    more sites; when every site's mapping is [None] or empty, the table, the
    insight list, the printed insights and the summary are all empty. *)
Theorem compare_sites_returns_iff sd :
  ((exists c, compare_sites sd = inr c) <-> 3 <= length sd) /\
  (forall c, compare_sites sd = inr c ->
     (forall site features, (site, features) ∈ sd ->
        features = None \/ features = Some ∅) ->
     table c = [] /\ insights c = [] /\ printed c = [] /\ summary c = []).
Proof.
  split.
  - split.
    + intros [c Hc]. by apply compare_sites_inr in Hc as [Hlen _].
    + intros Hlen. destruct (compare_sites_spec sd Hlen) as (c & _ & Hc & _).
      by exists c.
  - intros c Hc Hempty.
    pose proof (compare_sites_inr sd c Hc)
      as (Hlen & ins & _ & _ & _ & _ & Hpr & Hsum).
    destruct (compare_sites_all_empty sd Hlen Hempty) as (c' & Hc' & Ht & Hi).
    assert (c' = c) as -> by congruence.
    split; [exact Ht |]. split; [exact Hi |].
    split; [by rewrite Hpr, Hi |].
    rewrite Hsum. by apply summary_loop_nil.
Qed.





(** Property X15. At most five insights are printed; they are a prefix of
    the sorted list, and no insight that is left out has a larger variance
    than a printed one. *)
Theorem printed_insights_are_largest sd (c : Comparison) :
  compare_sites sd = inr c ->
  length (printed c) <= 5 /\
  exists rest,
    insights c = printed c ++ rest /\
    (length (insights c) <= 5 -> rest = []) /\
    forall a b, a ∈ printed c -> b ∈ rest ->
                (insight_variance b <= insight_variance a)%Q.
Proof.
  intros Hc. apply compare_sites_inr in Hc as (_ & ins & _ & _ & _ & Hs & Hp & _).
  unfold slice in Hp. simpl in Hp. rewrite Hp.
  split; [rewrite length_take; lia |].
  exists (drop 5 (insights c)). split; [by rewrite take_drop |]. split.
  - intros Hlen. by apply drop_ge.
  - intros a b Ha Hb.
    pose proof (sort_desc_sorted insight_variance ins) as Hsorted.
    rewrite <- Hs, <- (take_drop 5 (insights c)) in Hsorted.
    apply (StronglySorted_app_1_elem_of _ _ _ a b Hsorted Ha Hb).
Qed.

Lemma printed_insights_are_largest_witness :
  exists c,
    compare_sites (three_sites "spacing_density_score") = inr c /\
    length (printed c) <= 5.
Proof.
  destruct (compare_sites (three_sites "spacing_density_score"))
    as [e|c] eqn:Hc.
  - vm_compute in Hc. discriminate Hc.
  - exists c. split; [reflexivity |].
    apply (printed_insights_are_largest _ c Hc).
Defined.

Lemma summary_loop_elem sd (site : string) (ts : list string) :
  (site, ts) ∈ summary_loop sd <->
  exists m, (site, Some m) ∈ sd /\ m <> ∅ /\ ts = traits m.
Proof.
  induction sd as [|[site' features] sd IH]; simpl.
  - split; [intros H; by apply elem_of_nil in H |].
    intros (m & H & _). by apply elem_of_nil in H.
  - destruct features as [m|]; simpl.
    + case_bool_decide as Hm; simpl.
      * rewrite IH. split.
        -- intros (m' & Hin & H). exists m'. split; [by right | exact H].
        -- intros (m' & Hin & Hne & Ht).
           apply elem_of_cons in Hin as [Heq | Hin]; [| by exists m'].
           injection Heq as ? ?. subst. done.
      * rewrite elem_of_cons, IH. split.
        -- intros [Heq | (m' & Hin & H)].
           ++ injection Heq as ? ?. subst. exists m. split; [by left | done].
           ++ exists m'. split; [by right | exact H].
        -- intros (m' & Hin & Hne & Ht).
           apply elem_of_cons in Hin as [Heq | Hin]; [| right; by exists m'].
           injection Heq as ? ?. subst. by left.
    + rewrite IH. split.
      * intros (m' & Hin & H). exists m'. split; [by right | exact H].
      * intros (m' & Hin & H).
        apply elem_of_cons in Hin as [Heq | Hin]; [discriminate Heq |].
        by exists m'.
Qed.

Lemma summary_loop_sublist sd :
  map fst (summary_loop sd) `sublist_of` keys sd.
Proof.
  induction sd as [|[site features] sd IH]; simpl; [constructor |].
  destruct (truthy_features features); simpl.
  - by apply sublist_skip.
  - by apply sublist_cons.
Qed.

(** Property X16. The personality summary has a line exactly for the sites
    with a non-empty mapping, with the traits of that mapping, in site order:
    a failed site and a site with an empty mapping get none. *)
Theorem summary_lists_sites_with_features sd (c : Comparison) :
  compare_sites sd = inr c ->
  (forall site ts, (site, ts) ∈ summary c <->
     exists m, (site, Some m) ∈ sd /\ m <> ∅ /\ ts = traits m) /\
  map fst (summary c) `sublist_of` keys sd.
Proof.
  intros Hc. apply compare_sites_inr in Hc as (_ & ins & _ & _ & _ & _ & _ & Hs).
  rewrite Hs. split.
  - intros site ts. apply summary_loop_elem.
  - apply summary_loop_sublist.
Qed.

Lemma summary_lists_sites_with_features_witness :
  exists c,
    compare_sites (three_sites "spacing_density_score") = inr c /\
    map fst (summary c) `sublist_of` ["A"; "B"; "C"].
Proof.
  destruct (compare_sites (three_sites "spacing_density_score"))
    as [e|c] eqn:Hc.
  - vm_compute in Hc. discriminate Hc.
  - exists c. split; [reflexivity |].
    apply (summary_lists_sites_with_features _ c Hc).
Defined.
End ComparatorExtras.

Section TraitExtras.
Import Py Doc AnalyzeLayout.

Lemma traits_rules (features : gmap string Q) :
  traits features =
  flat_map (fun r : string * Q * string * Q * string =>
              let '(key, high, high_label, low, low_label) := r in
              trait_rule features key high high_label low low_label)
    trait_rules.
Proof. unfold traits, trait_rules. simpl. by rewrite app_nil_r. Qed.

Lemma trait_rule_length features key high hl low ll :
  length (trait_rule features key high hl low ll) <= 1.
Proof.
  unfold trait_rule. destruct (Qltb high _); [simpl; lia |].
  destruct (Qltb _ low); simpl; lia.
Qed.

Lemma trait_rule_middle features key high hl low ll :
  (low <= feature_get features key <= high)%Q ->
  trait_rule features key high hl low ll = [].
Proof.
  intros [Hl Hh]. unfold trait_rule.
  apply Qltb_ge in Hl, Hh. by rewrite Hh, Hl.
Qed.

Lemma trait_rule_low features key high hl low ll :
  (feature_get features key < low)%Q -> (low <= high)%Q ->
  trait_rule features key high hl low ll = [ll].
Proof.
  intros Hl Hlh. unfold trait_rule.
  assert (Hh : Qltb high (feature_get features key) = false)
    by (apply Qltb_ge; lra).
  apply Qltb_lt in Hl. by rewrite Hh, Hl.
Qed.

(** Property X17. A site gets at most seven traits; none when each of the
    seven features lies between its low and high cutoffs; and all seven
    low-side traits when its mapping lacks the seven keys, since a missing
    feature counts as 0. *)
Theorem traits_bands (features : gmap string Q) :
  length (traits features) <= 7 /\
  ((forall r, r ∈ trait_rules ->
      (rule_low r <= feature_get features (rule_key r) <= rule_high r)%Q) ->
   traits features = []) /\
  ((forall r, r ∈ trait_rules -> features !! rule_key r = None) ->
   traits features = map rule_low_label trait_rules).
Proof.
  split; [| split].
  - unfold traits. rewrite !length_app.
    repeat match goal with
    | |- context [length (trait_rule ?f ?k ?h ?hl ?l ?ll)] =>
        let H := fresh in
        pose proof (trait_rule_length f k h hl l ll) as H;
        generalize dependent (length (trait_rule f k h hl l ll)); intros
    end. lia.
  - intros H. apply Forall_forall in H. unfold trait_rules in H.
    repeat (apply Forall_cons in H as [? H]). simpl in *.
    unfold traits. by rewrite !trait_rule_middle by assumption.
  - intros H. apply Forall_forall in H. unfold trait_rules in H.
    repeat (apply Forall_cons in H as [? H]). simpl in *.
    unfold traits, trait_rules. simpl.
    rewrite !trait_rule_low; try reflexivity; try lra;
      unfold feature_get;
      repeat match goal with
      | Hk : ?f !! ?k = None |- context [?f !! ?k] => rewrite Hk
      end; simpl; lra.
Qed.
End TraitExtras.

Section MainExtras.
Import Py Doc AnalyzeLayout.

Lemma traits_bands_witness :
  traits ∅ = map rule_low_label trait_rules.
Proof.
  apply (proj2 (proj2 (traits_bands ∅))).
  intros r Hr. apply lookup_empty.
Defined.

End MainExtras.

Section HeatmapExtras.
Import Py Doc Heatmap.

Lemma load_loop_omap (artifacts : string -> option VectorData)
    (sites : list (string * string)) :
  forall acc,
  NoDup (keys acc ++ map snd sites) ->
  load_loop artifacts sites acc = acc ++ omap (loaded artifacts) sites.
Proof.
  induction sites as [|[run_id name] sites IH]; intros acc Hnd; simpl.
  - by rewrite app_nil_r.
  - simpl in Hnd. unfold loaded at 1. simpl.
    destruct (load_features artifacts run_id) as [e|features].
    + apply IH. apply NoDup_app in Hnd as (Ha & Hdisj & Hs).
      apply NoDup_cons in Hs as [_ Hs]. apply NoDup_app.
      split; [exact Ha |]. split; [| exact Hs].
      intros k Hk Hin. apply (Hdisj k Hk). by right.
    + rewrite setitem_fresh.
      * rewrite IH; [by rewrite <- app_assoc |].
        unfold keys in *. rewrite map_app, <- app_assoc. exact Hnd.
      * apply NoDup_app in Hnd as (_ & Hdisj & _).
        intros Hin. apply (Hdisj name Hin). by left.
Qed.

(** Property X18. The loading loop of the heatmap skips a site whose load
    raises: for distinct site names, [all_features] holds exactly the sites
    that loaded, with their features, in the order of [sites]. *)
Theorem heatmap_skips_failed_sites
    (artifacts : string -> option VectorData)
    (sites : list (string * string)) :
  NoDup (map snd sites) ->
  load_loop artifacts sites [] = omap (loaded artifacts) sites /\
  (forall name features,
     (name, features) ∈ load_loop artifacts sites [] <->
     exists run_id, (run_id, name) ∈ sites /\
                    load_features artifacts run_id = inr features) /\
  length (load_loop artifacts sites []) <= length sites.
Proof.
  intros Hnd.
  assert (Heq : load_loop artifacts sites [] = omap (loaded artifacts) sites)
    by (by rewrite load_loop_omap).
  split; [exact Heq |]. rewrite Heq. split.
  - intros name features. rewrite list_elem_of_omap. split.
    + intros ([run_id name'] & Hin & Hl). unfold loaded in Hl. simpl in Hl.
      destruct (load_features artifacts run_id) as [e|f] eqn:Hf;
        [discriminate Hl |].
      injection Hl as -> ->. by exists run_id.
    + intros (run_id & Hin & Hf). exists (run_id, name).
      split; [exact Hin |]. unfold loaded. simpl. by rewrite Hf.
  - generalize (loaded artifacts) as f. intros f. clear.
    induction sites as [|s sites IH]; [done |].
    change (omap f (s :: sites))
      with (match f s with
            | Some y => y :: omap f sites
            | None => omap f sites
            end).
    destruct (f s); cbn [length]; lia.
Qed.

Lemma heatmap_skips_failed_sites_witness :
  load_loop monzo_missing AnalyzeLayout.sites [] =
  omap (loaded monzo_missing) AnalyzeLayout.sites.
Proof.
  apply (heatmap_skips_failed_sites monzo_missing AnalyzeLayout.sites).
  apply (bool_decide_unpack _). vm_compute. reflexivity.
Defined.
End HeatmapExtras.

Section ComparisonExtras.
Import Py Doc DeepCompare.



End ComparisonExtras.

Section BarExtras.
Import Py Doc AnalyzeLayout.

Lemma int_scaled (value : Q) :
  int (value * inject_Z bar_length) = (Qnum value * 40 ÷ Zpos (Qden value))%Z.
Proof. unfold int, bar_length. simpl. by rewrite Pos.mul_1_r. Qed.

Lemma filled_in_range (value : Q) :
  (0 <= value <= 1)%Q ->
  (0 <= int (value * inject_Z bar_length) <= 40)%Z.
Proof.
  intros [H0 H1]. rewrite int_scaled.
  destruct value as [n d]. unfold Qle in *. simpl in *.
  assert (Hn : (0 <= n * 40)%Z) by lia.
  rewrite Z.quot_div_nonneg by lia. split.
  - apply Z.div_pos; lia.
  - apply Z.div_le_upper_bound; lia.
Qed.

Lemma filled_above (value : Q) :
  (41 # 40 <= value)%Q ->
  (41 <= int (value * inject_Z bar_length))%Z.
Proof.
  intros H. rewrite int_scaled.
  destruct value as [n d]. unfold Qle in H. simpl in *.
  rewrite Z.quot_div_nonneg by lia.
  apply Z.div_le_lower_bound; lia.
Qed.

Lemma filled_below (value : Q) :
  (value <= -1 # 40)%Q ->
  (int (value * inject_Z bar_length) <= -1)%Z.
Proof.
  intros H. rewrite int_scaled.
  destruct value as [n d]. unfold Qle in H. simpl in *.
  replace (n * 40)%Z with (- (- n * 40))%Z by lia.
  rewrite Z.quot_opp_l by lia.
  rewrite Z.quot_div_nonneg by lia.
  assert (1 <= (- n * 40) / Z.pos d)%Z; [| lia].
  apply Z.div_le_lower_bound; lia.
Qed.

(** Property X20. The bar of [print_feature_bar] has exactly 40 cells, of
    which [int(value * 40)] are filled, for a value between 0 and 1; from
    41/40 on it is longer than 40 cells and all filled; from -1/40 down it is
    longer than 40 cells and all shade. *)
Theorem print_feature_bar_width (value : Q) :
  ((0 <= value <= 1)%Q ->
   length (print_feature_bar value) = 40 /\
   exists n, n <= 40 /\
     Z.of_nat n = int (value * inject_Z bar_length) /\
     print_feature_bar value = repeat Filled n ++ repeat Shade (40 - n)) /\
  ((41 # 40 <= value)%Q ->
   40 < length (print_feature_bar value) /\
   Forall (fun cell => cell = Filled) (print_feature_bar value)) /\
  ((value <= -1 # 40)%Q ->
   40 < length (print_feature_bar value) /\
   Forall (fun cell => cell = Shade) (print_feature_bar value)).
Proof.
  unfold print_feature_bar, times. split; [| split].
  - intros Hv. pose proof (filled_in_range value Hv) as Hf.
    set (filled := int (value * inject_Z bar_length)) in *.
    split.
    + rewrite length_app, !repeat_length. unfold bar_length. lia.
    + exists (Z.to_nat filled). split; [lia |]. split; [lia |].
      do 2 f_equal. unfold bar_length. lia.
  - intros Hv. pose proof (filled_above value Hv) as Hf.
    set (filled := int (value * inject_Z bar_length)) in *.
    split.
    + rewrite length_app, !repeat_length. lia.
    + replace (Z.to_nat (bar_length - filled)) with 0
        by (unfold bar_length; lia).
      simpl. rewrite app_nil_r. apply Forall_forall.
      intros cell Hc. apply list_elem_of_In in Hc. by apply repeat_spec in Hc.
  - intros Hv. pose proof (filled_below value Hv) as Hf.
    set (filled := int (value * inject_Z bar_length)) in *.
    split.
    + rewrite length_app, !repeat_length. unfold bar_length. lia.
    + replace (Z.to_nat filled) with 0 by lia.
      simpl. apply Forall_forall.
      intros cell Hc. apply list_elem_of_In in Hc. by apply repeat_spec in Hc.
Qed.

Lemma print_feature_bar_width_witness :
  length (print_feature_bar 0.831%Q) = 40.
Proof.
  apply (proj1 (print_feature_bar_width 0.831%Q)).
  split; unfold Qle; simpl; lia.
Defined.
End BarExtras.

Section ExtraWitnesses.
Import Py Doc.



Lemma compare_sites_returns_iff_witness :
  exists c, AnalyzeLayout.compare_sites
              (three_sites "spacing_density_score") = inr c.
Proof.
  apply (proj2 (proj1 (compare_sites_returns_iff
                         (three_sites "spacing_density_score")))).
  simpl. lia.
Defined.
End ExtraWitnesses.
